(** * The fastai item-list tutorial: a model of its code and the properties it states

    The repository's source is [docs_src/tutorial.itemlist.ipynb], a notebook
    whose markdown cells quote methods of the library: [Image.show_xys],
    [Image.show_xyzs], [SegmentationProcessor], [MyCustomItemList],
    [ImageItemList.get] and [open], and [MultiCategoryList.analyze_pred].
    Each of these methods is embedded below as
    a Rocq function, Python effects being made explicit: attribute stores are
    finite maps, exceptions are a sum type, and calls into matplotlib are
    recorded as a trace of events. *)

From Stdlib Require Import ZArith List Lia Bool Floats.
From Stdlib Require Import QArith Qround Qpower Qreduction Lqa.
From stdpp Require Import base option list gmap strings.

Import ListNotations.
Local Open Scope Z_scope.

(** ** Python exceptions and the evaluation monad *)

Inductive exn : Type :=
| IndexError
| AttributeError
| TypeError
| ValueError
| OSError.

(** A Python computation over a state [S]: it ends with a value or an
    exception, and the state reached is kept in both cases (what was
    assigned before a [raise] stays assigned). *)
Definition py (S A : Type) : Type := S -> (exn + A) * S.

Definition raise {S A} (e : exn) : py S A := fun s => (inl e, s).

#[global] Instance py_ret {S} : MRet (py S) :=
  fun A (a : A) s => (inr a, s).

#[global] Instance py_bind {S} : MBind (py S) :=
  fun A B (k : A -> py S B) (m : py S A) s =>
    match m s with
    | (inl e, s') => (inl e, s')
    | (inr a, s') => k a s'
    end.

Definition lift_opt {S A} (e : exn) (o : option A) : py S A :=
  match o with
  | Some a => mret a
  | None => raise e
  end.

(** Python subscripting of a sequence by an integer: a negative index counts
    from the end, anything outside [-len, len) is out of range. *)
Definition py_index {A} (l : list A) (i : Z) : option A :=
  let n := Z.of_nat (length l) in
  if (0 <=? i) && (i <? n) then l !! Z.to_nat i
  else if (- n <=? i) && (i <? 0) then l !! Z.to_nat (n + i)
  else None.

(** [for i, a in enumerate(l): body], the counter starting at [start]. *)
Fixpoint for_enumerate {S A} (start : Z) (l : list A) (body : Z -> A -> py S unit)
  : py S unit :=
  match l with
  | [] => mret tt
  | a :: l' => _ ← body start a; for_enumerate (start + 1) l' body
  end.

(** ** Floating-point numbers and the conversion to a dtype *)

Module Float.

(** A floating-point value is taken as the number it denotes: NaN, one of
    the two infinities, or a rational number (the two zeros compare equal
    and are one value here).  A value of a format is a value of every
    wider one, so a [float32] entry and a Python [float] are compared as
    numbers. *)
Inductive fp : Type :=
| NaN
| Inf (neg : bool)
| Fin (q : Q).

(** [a <= b] as IEEE has it: false when either side is NaN. *)
Definition fle (a b : fp) : bool :=
  match a, b with
  | NaN, _ | _, NaN => false
  | Inf true, _ => true
  | _, Inf false => true
  | Inf false, _ => false
  | _, Inf true => false
  | Fin p, Fin q => Qle_bool p q
  end.

Definition is_nan (x : fp) : bool :=
  match x with NaN => true | _ => false end.

Definition fneg (x : fp) : fp :=
  match x with
  | NaN => NaN
  | Inf s => Inf (negb s)
  | Fin q => Fin (- q)
  end.

(** A binary format: [prec] bits of mantissa, the exponent [emin] of its
    smallest positive number, and [emax], the exponent from which a number
    overflows.  Its finite numbers are [k * 2^e] with [|k| < 2^prec],
    [e >= emin] and magnitude below [2^emax]. *)
Record format : Type := mkFormat { prec : Z; emin : Z; emax : Z }.

Definition binary32 : format := mkFormat 24 (-149) 128.

Definition binary64 : format := mkFormat 53 (-1074) 1024.

Definition pow2 (e : Z) : Q := (2 ^ e)%Q.

(** For [a > 0], the [E] with [2^(E-1) <= a < 2^E]. *)
Definition binade (a : Q) : Z :=
  let g := Z.log2 (Qnum a) - Z.log2 (Zpos (Qden a)) in
  if Qle_bool (pow2 g) a then g + 1 else g.

(** The nearest integer, a tie going to the even one. *)
Definition rne (t : Q) : Z :=
  let f := Qfloor t in
  match (t - inject_Z f ?= 1 # 2)%Q with
  | Lt => f
  | Gt => f + 1
  | Eq => if Z.even f then f else f + 1
  end.

(** The exponent of the last bit a format keeps of [a > 0]. *)
Definition ulp_exp (fmt : format) (a : Q) : Z :=
  Z.max (binade a - prec fmt) (emin fmt).

(** [a > 0] rounded to the nearest multiple of that last bit. *)
Definition nearest (fmt : format) (a : Q) : Q :=
  (inject_Z (rne (a / pow2 (ulp_exp fmt a))) * pow2 (ulp_exp fmt a))%Q.

Definition round_pos (fmt : format) (a : Q) : fp :=
  let r := Qred (nearest fmt a) in
  if Qle_bool (pow2 (emax fmt)) r then Inf false else Fin r.

(** Conversion to a format, as a C cast or torch's [to(dtype)] does it:
    round to nearest, ties to even; what rounds to [2^emax] or beyond
    becomes an infinity, NaN stays NaN. *)
Definition round (fmt : format) (x : fp) : fp :=
  match x with
  | NaN => NaN
  | Inf s => Inf s
  | Fin q =>
      match (q ?= 0)%Q with
      | Eq => Fin 0
      | Gt => round_pos fmt q
      | Lt => fneg (round_pos fmt (- q))
      end
  end.

(** The number a float of the Standard Library's specification denotes,
    and that library's own rounding to [prec] bits, to compare [round]
    with. *)
Definition spec_value (x : spec_float) : fp :=
  match x with
  | S754_zero _ => Fin 0
  | S754_infinity s => Inf s
  | S754_nan => NaN
  | S754_finite s m e =>
      Fin (Qred ((if s then - inject_Z (Zpos m) else inject_Z (Zpos m)) * pow2 e))
  end.

Definition of_float (x : float) : fp := spec_value (Prim2SF x).

Definition round_spec (p e : Z) (x : spec_float) : spec_float :=
  match x with
  | S754_finite s m ex => binary_normalize p e (if s then Zneg m else Zpos m) ex s
  | _ => x
  end.

(** 0.7 as a Python float and as a single-precision number, and the
    smallest positive single-precision number. *)
Definition double_0_7 : fp := Fin (3152519739159347 # 4503599627370496).


Definition single_tiny : fp := Fin (1 # 713623846352979940529142984724747568191373312).

End Float.

(** ** Tensors and [MultiCategoryList.analyze_pred] *)

Module Tensor.

Import Float.

(** A tensor is its sizes and a flat row-major storage, as torch has it.
    The element type is a parameter: [fp] for the values of a float tensor,
    [bool] for the mask a comparison returns. *)
Record tensor (A : Type) : Type := mkTensor {
  shape : list nat;
  storage : list A
}.
Arguments mkTensor {A} _ _.
Arguments shape {A} _.
Arguments storage {A} _.




Definition tmap {A B} (f : A -> B) (t : tensor A) : tensor B :=
  mkTensor (shape t) (List.map f (storage t)).

(** The dtype of a tensor of predictions: single precision, torch's
    default, or double precision. *)
Inductive dtype : Type := Float32 | Float64.

Definition format_of (d : dtype) : format :=
  match d with
  | Float32 => binary32
  | Float64 => binary64
  end.

(** A float tensor: its dtype and its values. *)
Record ftensor : Type := mkFloat {
  dtype_of : dtype;
  values : tensor fp
}.

(** A Python scalar meeting a float tensor is converted to the dtype of
    the tensor before the operation. *)
Definition to_dtype (d : dtype) (x : fp) : fp := round (format_of d) x.

(** [pred >= thresh]: [thresh] is converted to the dtype of [pred], then
    compared with each entry. *)
Definition ge (pred : ftensor) (thresh : fp) : tensor bool :=
  tmap (fun x => fle (to_dtype (dtype_of pred) thresh) x) (values pred).

(** [mask.float()]: a single-precision tensor, [True] becoming [1.0] and
    [False] becoming [0.0]. *)
Definition bool_to_float (b : bool) : fp :=
  if b then Fin 1 else Fin 0.

Definition float_ (mask : tensor bool) : ftensor :=
  mkFloat Float32 (tmap bool_to_float mask).

Definition default_thresh : fp := Fin (1 # 2).

(** [def analyze_pred(self, pred, thresh:float=0.5): return (pred >= thresh).float()]
    The keyword argument is [None] when the caller leaves it out. *)
Definition analyze_pred (pred : ftensor) (thresh : option fp) : ftensor :=
  let thresh := match thresh with Some th => th | None => default_thresh end in
  float_ (ge pred thresh).

(** The value the method writes at a position holding [x], for a
    threshold [cth] already converted: 1.0 when [x >= cth], 0.0 otherwise. *)
Definition thresholded (cth x : fp) : fp :=
  if fle cth x then Fin 1 else Fin 0.

(** A 2x2 single-precision tensor of predictions, one of them not a
    number; and the one-element tensor holding single-precision 0.7. *)
Definition sample_pred : ftensor :=
  mkFloat Float32 (mkTensor [2; 2]%nat [Fin (1 # 4); Fin (1 # 2); Fin (3 # 4); NaN]).


End Tensor.

(** ** [ImageItemList.get] and [open] *)

Module ImageItemList.

Section WithLibrary.

(** The library's [Image] class and [open_image] function are not quoted by
    the notebook: they are parameters.  [open_image] reads a file and may
    raise; [size] is the [size] property of an image. *)
Variable Image : Type.
Variable Size : Type.
Variable size : Image -> Size.
Variable open_image : string -> exn + Image.

(** The two attributes [get] touches: [items], the array of file names, and
    [sizes], the dict the library initialises to [{}] and fills by index. *)
Record t : Type := mk {
  items : list string;
  sizes : gmap Z Size
}.

(** [ItemList.get]: the notebook's words, the first line basically looks at
    [self.items[i]]. *)
Definition ItemList_get (i : Z) : py t string :=
  fun self => lift_opt IndexError (py_index (items self) i) self.

(** [def open(self, fn): return open_image(fn)] *)
Definition open (fn : string) : py t Image :=
  fun self => (open_image fn, self).

(** [self.sizes[i] = v] *)
Definition set_sizes (i : Z) (v : Size) : py t unit :=
  fun self => (inr tt, mk (items self) (<[i := v]> (sizes self))).

(** [[
def get(self, i):
    fn = super().get(i)
    res = self.open(fn)
    self.sizes[i] = res.size
    return res
]] *)
Definition get (i : Z) : py t Image :=
  fn ← ItemList_get i;
  res ← open fn;
  _ ← set_sizes i (size res);
  mret res.

End WithLibrary.

Arguments mk {Size} _ _.
Arguments items {Size} _.
Arguments sizes {Size} _.
Arguments ItemList_get {Size} _ _.
Arguments open {Image Size} _ _ _.
Arguments set_sizes {Size} _ _ _.
Arguments get {Image Size} _ _ _ _.

(** A list of two files read as 28x28 and 32x32 images; a missing file
    cannot be opened. *)
Definition demo_open_image (fn : string) : exn + (string * (Z * Z)) :=
  if String.eqb fn "a.png" then inr (fn, (28, 28))
  else if String.eqb fn "b.png" then inr (fn, (32, 32))
  else inl OSError.

Definition demo_list : t (Z * Z) := mk ["a.png"; "b.png"; "gone.png"] {[ 0 := (28, 28) ]}.

(** What [sizes] is for: every size recorded at a key is the size of the
    image that opening the item at that index yields. *)
Definition sizes_recorded {Image Size : Type} (size : Image -> Size)
  (open_image : string -> exn + Image) (self : t Size) : Prop :=
  forall (i : Z) (sz : Size),
    sizes self !! i = Some sz ->
    exists (fn : string) (res : Image),
      py_index (items self) i = Some fn /\ open_image fn = inr res /\ size res = sz.

End ImageItemList.

(** ** Python objects: a store of instances with attribute dictionaries *)

Module Heap.

(** Locations of the store are positive numbers. *)
Abbreviation loc := positive (only parsing).

(** A value is [None], an int, a string, or a reference to an object of the
    store: two attributes holding the same reference share the object. *)
Inductive value : Type :=
| VNone
| VInt (z : Z)
| VStr (s : string)
| VRef (l : loc).

(** An object of the store: a list, or an instance of a class with its
    attribute dictionary ([__dict__]). *)
Inductive object : Type :=
| OList (elems : list value)
| OInst (cls : string) (attrs : gmap string value).

(** The store maps locations to objects. *)
Abbreviation heap := (gmap positive object) (only parsing).

(** [o.name]: [AttributeError] when [o] has no such attribute. *)
Definition getattr (o : loc) (name : string) : py heap value :=
  fun h => match h !! o with
           | Some (OInst _ attrs) => lift_opt AttributeError (attrs !! name) h
           | _ => raise AttributeError h
           end.

(** [o.name = v]: only instances take new attributes. *)
Definition setattr (o : loc) (name : string) (v : value) : py heap unit :=
  fun h => match h !! o with
           | Some (OInst c attrs) => (inr tt, <[o := OInst c (<[name := v]> attrs)]> h)
           | _ => raise AttributeError h
           end.

(** [len(v)] as a function of the store: strings and lists have a length. *)
Definition len_of (h : heap) (v : value) : option Z :=
  match v with
  | VStr s => Some (Z.of_nat (String.length s))
  | VRef l => match h !! l with
              | Some (OList elems) => Some (Z.of_nat (length elems))
              | _ => None
              end
  | _ => None
  end.

(** [len(v)]: [TypeError] for an object that has no length. *)
Definition len (v : value) : py heap Z :=
  fun h => lift_opt TypeError (len_of h v) h.

(** Creating an instance of class [c]: a location the store does not use. *)
Definition alloc (c : string) : py heap loc :=
  fun h => let l := fresh (dom h) in (inr l, <[l := OInst c ∅]> h).

(** What an observer reads off the store: the attribute [name] of the
    instance at [o], and the class of that instance. *)
Definition attr (h : heap) (o : loc) (name : string) : option value :=
  match h !! o with
  | Some (OInst _ attrs) => attrs !! name
  | _ => None
  end.

Definition class_of (h : heap) (o : loc) : option string :=
  match h !! o with
  | Some (OInst c _) => Some c
  | _ => None
  end.

(** A store with a labelled list at 1 whose [classes] is the list object
    at 2, and an unlabelled list at 3 carrying stale [classes] and [c]. *)
Definition demo_heap : heap :=
  {[ 1%positive := OInst "SegmentationLabelList"
                     {[ "classes" := VRef 2%positive; "path" := VStr "camvid" ]};
     2%positive := OList [VStr "Sky"; VStr "Road"; VStr "Car"];
     3%positive := OInst "SegmentationLabelList"
                     {[ "classes" := VNone; "c" := VInt 7; "path" := VStr "test" ]} ]}.

(** [demo_heap] with a processor at 4 that captured the classes at 2. *)
Definition demo_heap_processed : heap :=
  <[4%positive := OInst "SegmentationProcessor" {[ "classes" := VRef 2%positive ]}]>
    demo_heap.

(** [demo_heap] with two processors that cannot process: the one at 4
    holds [None] for its classes, the one at 5 has lost the attribute. *)
Definition demo_heap_unset : heap :=
  <[4%positive := OInst "SegmentationProcessor" {[ "classes" := VNone ]}]>
    (<[5%positive := OInst "SegmentationProcessor" ∅]> demo_heap).

(** Other leftovers in [classes] and [c] for the unlabelled list at 3. *)
Definition demo_stale_attrs : gmap string value :=
  {[ "classes" := VStr "stale"; "c" := VInt 0; "path" := VStr "test" ]}.

End Heap.

(** ** [SegmentationProcessor] *)

Module SegmentationProcessor.

Import Heap.

(** [def __init__(self, ds:ItemList): self.classes = ds.classes] *)
Definition __init__ (self ds : loc) : py heap unit :=
  v ← getattr ds "classes";
  setattr self "classes" v.

(** The call [SegmentationProcessor(ds)]: a new instance, initialised. *)
Definition create (ds : loc) : py heap loc :=
  self ← alloc "SegmentationProcessor";
  _ ← __init__ self ds;
  mret self.

(** [def process(self, ds:ItemList):  ds.classes,ds.c = self.classes,len(self.classes)]
    The right-hand tuple is evaluated first, left to right, then the two
    targets are assigned, left to right. *)
Definition process (self ds : loc) : py heap unit :=
  v ← getattr self "classes";
  w ← getattr self "classes";
  n ← len w;
  _ ← setattr ds "classes" v;
  setattr ds "c" (VInt n).

End SegmentationProcessor.

(** ** [MyCustomItemList] *)

Module MyCustomItemList.

Import Heap.

Section WithItemList.

(** [ItemList.__init__] and [ItemList.new], the methods of the base class
    reached through [super()], are not quoted by the notebook: parameters.
    Each takes the receiver, the positional arguments and the keyword
    arguments, and runs on the store. *)
Variable ItemList_init : loc -> list value -> gmap string value -> py heap unit.
Variable ItemList_new : loc -> list value -> gmap string value -> py heap value.

(** [[
def __init__(self, items, my_arg, **kwargs):
    self.my_arg = my_arg
    super().__init__(items, **kwargs)
]] *)
Definition __init__ (self : loc) (items my_arg : value) (kwargs : gmap string value)
  : py heap unit :=
  _ ← setattr self "my_arg" my_arg;
  ItemList_init self [items] kwargs.

(** [[
def new(self, items, **kwargs):
    super().new(items, self.my_arg, **kwargs)
]]
    The body is one expression statement: its value is dropped, and a
    function whose body ends without [return] returns [None]. *)
Definition new (self : loc) (items : value) (kwargs : gmap string value)
  : py heap value :=
  my_arg ← getattr self "my_arg";
  _ ← ItemList_new self [items; my_arg] kwargs;
  mret VNone.

End WithItemList.

(** A stand-in for the base class: [new] creates an [ItemList] holding the
    items and the processor it is given, and returns it; [__init__] stores
    the items. *)
Definition demo_ItemList_init (self : loc) (args : list value)
  (kwargs : gmap string value) : py heap unit :=
  setattr self "items" (List.hd VNone args).

Definition demo_ItemList_new (self : loc) (args : list value)
  (kwargs : gmap string value) : py heap value :=
  l ← alloc "ItemList";
  _ ← setattr l "items" (List.nth 0 args VNone);
  _ ← setattr l "processor" (List.nth 1 args VNone);
  mret (VRef l).

(** A stricter stand-in: [new] refuses items that are no object. *)
Definition demo_ItemList_new_strict (self : loc) (args : list value)
  (kwargs : gmap string value) : py heap value :=
  match List.nth 0 args VNone with
  | VRef _ => demo_ItemList_new self args kwargs
  | _ => raise TypeError
  end.

(** A custom list at 1 that never got its argument, its items at 2. *)
Definition demo_custom_unset : heap :=
  {[ 1%positive := OInst "MyCustomItemList" {[ "items" := VRef 2%positive ]};
     2%positive := OList [VStr "a"; VStr "b"] ]}.

(** A custom list at 1 with its argument, and its items at 2. *)
Definition demo_custom : heap :=
  {[ 1%positive := OInst "MyCustomItemList"
                     {[ "my_arg" := VInt 42; "items" := VRef 2%positive ]};
     2%positive := OList [VStr "a"; VStr "b"] ]}.

End MyCustomItemList.

(** ** [Image.show_xys] and [Image.show_xyzs] *)

Module Image.

(** What [plt.subplots] hands back, with matplotlib's default
    [squeeze=True]: one Axes for a 1x1 grid, a 1-D array for a single row or
    a single column, a 2-D array otherwise.  An Axes is named by its place
    in the grid. *)
Inductive axes : Type :=
| Ax (row col : Z)
| Arr1 (l : list (Z * Z))
| Arr2 (rows : list (list (Z * Z))).

(** The Axes at a place of the grid. *)
Definition ax_at (rc : Z * Z) : axes := Ax rc.1 rc.2.

(** The two sequences [show_xys] subscripts. *)
Inductive seq_name : Type := Xs | Ys.

Section WithItems.

(** Inputs, targets (predictions are targets too) and the keyword arguments
    handed on to [show]. *)
Variable X Y K : Type.

(** What the two methods do to the outside: calls into matplotlib, the
    subscripts [xs[i]] and [ys[i]], and the calls of an item's [show]. *)
Inductive event : Type :=
| Subplots (nrows ncols : Z) (figsize : Z * Z)
| Suptitle (title : string)
| GetItem (s : seq_name) (i : Z)
| Show (x : X) (ax : axes) (y : Y) (kwargs : K)
| TightLayout.

Definition trace : Type := list event.

Definition emit (e : event) : py trace unit :=
  fun tr => (inr tt, tr ++ [e]).

Definition grid_row (ncols : Z) (r : Z) : list (Z * Z) :=
  (fun c => (r, c)) <$> seqZ 0 ncols.

Definition grid (nrows ncols : Z) : list (list (Z * Z)) :=
  grid_row ncols <$> seqZ 0 nrows.

(** [fig, axs = plt.subplots(nrows, ncols, figsize=figsize)]: a grid needs
    at least one row and one column, and the array of Axes is squeezed. *)
Definition subplots (nrows ncols : Z) (figsize : Z * Z) : py trace axes :=
  _ ← emit (Subplots nrows ncols figsize);
  if (nrows <? 1) || (ncols <? 1) then raise ValueError
  else if (nrows =? 1) && (ncols =? 1) then mret (Ax 0 0)
  else if (nrows =? 1) || (ncols =? 1) then mret (Arr1 (concat (grid nrows ncols)))
  else mret (Arr2 (grid nrows ncols)).

(** [axs.flatten()]: a method of arrays, not of a single Axes. *)
Definition flatten (axs : axes) : py trace (list axes) :=
  match axs with
  | Ax _ _ => raise AttributeError
  | Arr1 l => mret (ax_at <$> l)
  | Arr2 rows => mret (ax_at <$> concat rows)
  end.

(** [axs[i, j]]: two subscripts need a 2-D array. *)
Definition getitem2 (axs : axes) (i j : Z) : py trace axes :=
  match axs with
  | Ax _ _ => raise TypeError
  | Arr1 _ => raise IndexError
  | Arr2 rows =>
      row ← lift_opt IndexError (py_index rows i);
      rc ← lift_opt IndexError (py_index row j);
      mret (ax_at rc)
  end.

(** [l[i]] on one of the two sequences, recorded in the trace. *)
Definition getitem {A} (s : seq_name) (l : list A) (i : Z) : py trace A :=
  _ ← emit (GetItem s i);
  lift_opt IndexError (py_index l i).

(** [x.show(ax=ax, y=y, **kwargs)] *)
Definition show (x : X) (ax : axes) (y : Y) (kwargs : K) : py trace unit :=
  emit (Show x ax y kwargs).

(** [int(math.sqrt(n))] for the length of a list: the floor of the square
    root (the double-precision root is exact enough for any length a list
    can have). *)
Definition int_sqrt (n : Z) : Z := Z.sqrt n.

Definition default_figsize : Z * Z := (9, 10).

(** [[
def show_xys(self, xs, ys, figsize:Tuple[int,int]=(9,10), **kwargs):
    rows = int(math.sqrt(len(xs)))
    fig, axs = plt.subplots(rows,rows,figsize=figsize)
    for i, ax in enumerate(axs.flatten() if rows > 1 else [axs]):
        xs[i].show(ax=ax, y=ys[i], **kwargs)
    plt.tight_layout()
]] *)
Definition show_xys (xs : list X) (ys : list Y) (figsize : Z * Z) (kwargs : K)
  : py trace unit :=
  let rows := int_sqrt (Z.of_nat (length xs)) in
  axs ← subplots rows rows figsize;
  axl ← (if 1 <? rows then flatten axs else mret [axs]);
  _ ← for_enumerate 0 axl (fun i ax =>
         x ← getitem Xs xs i;
         y ← getitem Ys ys i;
         show x ax y kwargs);
  emit TightLayout.

(** [zip(xs, ys, zs)]: as long as the shortest of the three. *)
Fixpoint zip3 (xs : list X) (ys zs : list Y) : list (X * Y * Y) :=
  match xs, ys, zs with
  | x :: xs', y :: ys', z :: zs' => (x, y, z) :: zip3 xs' ys' zs'
  | _, _, _ => []
  end.

(** [ifnone(a, b)]: [b] when [a] is [None]. *)
Definition ifnone {A} (a : option A) (b : A) : A :=
  match a with
  | Some v => v
  | None => b
  end.

(** [[
def show_xyzs(self, xs, ys, zs, figsize:Tuple[int,int]=None, **kwargs):
    figsize = ifnone(figsize, (6,3*len(xs)))
    fig,axs = plt.subplots(len(xs), 2, figsize=figsize)
    fig.suptitle('Ground truth / Predictions', weight='bold', size=14)
    for i,(x,y,z) in enumerate(zip(xs,ys,zs)):
        x.show(ax=axs[i,0], y=y, **kwargs)
        x.show(ax=axs[i,1], y=z, **kwargs)
]] *)
Definition show_xyzs (xs : list X) (ys zs : list Y) (figsize : option (Z * Z))
  (kwargs : K) : py trace unit :=
  let figsize := ifnone figsize (6, 3 * Z.of_nat (length xs)) in
  axs ← subplots (Z.of_nat (length xs)) 2 figsize;
  _ ← emit (Suptitle "Ground truth / Predictions");
  for_enumerate 0 (zip3 xs ys zs) (fun i '(x, y, z) =>
    a0 ← getitem2 axs i 0;
    _ ← show x a0 y kwargs;
    a1 ← getitem2 axs i 1;
    show x a1 z kwargs).

(** The subscripts and the [show] calls of a trace, in order. *)
Definition accesses (tr : trace) : list (seq_name * Z) :=
  omap (fun e => match e with GetItem s i => Some (s, i) | _ => None end) tr.

Definition shows (tr : trace) : list (X * axes * Y) :=
  omap (fun e => match e with Show x a y _ => Some (x, a, y) | _ => None end) tr.

End WithItems.

Arguments emit {X Y K} _ _.
Arguments subplots {X Y K} _ _ _ _.
Arguments flatten {X Y K} _ _.
Arguments getitem2 {X Y K} _ _ _ _.
Arguments getitem {X Y K A} _ _ _ _.
Arguments show {X Y K} _ _ _ _ _.
Arguments show_xys {X Y K} _ _ _ _ _.
Arguments show_xyzs {X Y K} _ _ _ _ _ _.
Arguments zip3 {X Y} _ _ _.
Arguments accesses {X Y K} _.
Arguments shows {X Y K} _.
Arguments Subplots {X Y K} _ _ _.
Arguments Suptitle {X Y K} _.
Arguments GetItem {X Y K} _ _.
Arguments Show {X Y K} _ _ _ _.
Arguments TightLayout {X Y K}.

(** Five numbered inputs with their targets and predictions. *)
Definition demo_xs : list nat := [10; 11; 12; 13; 14]%nat.
Definition demo_ys : list nat := [20; 21; 22; 23; 24]%nat.
Definition demo_zs : list nat := [30; 31; 32; 33; 34]%nat.

End Image.

(** * Properties *)

(** ** Floating-point numbers: order and conversion *)

Module FloatFacts.

Import Float.

Local Open Scope Q_scope.

Lemma pow2_pos (e : Z) : 0 < pow2 e.
Proof. apply Qpower_0_lt. reflexivity. Qed.

Lemma pow2_add (a b : Z) : pow2 (a + b) == pow2 a * pow2 b.
Proof. apply Qpower_plus. discriminate. Qed.

Lemma pow2_le (a b : Z) : (a <= b)%Z -> pow2 a <= pow2 b.
Proof. intros H. apply Qpower_le_compat_l; [exact H|discriminate]. Qed.

Lemma pow2_lt_inv (a b : Z) : pow2 a < pow2 b -> (a < b)%Z.
Proof. intros H. apply (Qpower_lt_compat_l_inv 2); [exact H|reflexivity]. Qed.

Lemma pow2_int (n : Z) : (0 <= n)%Z -> pow2 n == inject_Z (2 ^ n).
Proof. intros H. unfold pow2. now rewrite Zpower_Qpower. Qed.

Lemma pow2_split (e q : Z) : (q <= e)%Z -> pow2 e == inject_Z (2 ^ (e - q)) * pow2 q.
Proof.
  intros H. rewrite <- pow2_int by lia. rewrite <- pow2_add.
  now replace (e - q + q)%Z with e by lia.
Qed.

Lemma div_pow2 (x : Q) (q : Z) : x / pow2 q * pow2 q == x.
Proof. field. pose proof (pow2_pos q). lra. Qed.

Lemma div_pow2_le (x y : Q) (q : Z) : x <= y -> x / pow2 q <= y / pow2 q.
Proof.
  intros H. unfold Qdiv. apply Qmult_le_compat_r; [exact H|].
  apply Qlt_le_weak, Qinv_lt_0_compat, pow2_pos.
Qed.

Lemma int_div_pow2 (n : Z) (q : Z) : inject_Z n * pow2 q / pow2 q == inject_Z n.
Proof. field. pose proof (pow2_pos q). lra. Qed.

(** *** Rounding to the nearest integer, ties to even *)

Lemma rne_bounds (t : Q) : (Qfloor t <= rne t <= Qfloor t + 1)%Z.
Proof.
  unfold rne. destruct (t - inject_Z (Qfloor t) ?= 1 # 2); [|lia|lia].
  destruct (Z.even (Qfloor t)); lia.
Qed.

Lemma rne_int (n : Z) : rne (inject_Z n) = n.
Proof.
  unfold rne. rewrite Qfloor_Z.
  destruct (Qcompare_spec (inject_Z n - inject_Z n) (1 # 2)) as [H|H|H];
    [exfalso; lra|reflexivity|exfalso; lra].
Qed.

Lemma rne_mono (t u : Q) : t <= u -> (rne t <= rne u)%Z.
Proof.
  intros Htu. pose proof (Qfloor_resp_le _ _ Htu) as Hfl.
  destruct (Z.eq_dec (Qfloor t) (Qfloor u)) as [Heq|Hne].
  - unfold rne. rewrite <- Heq.
    destruct (Qcompare_spec (t - inject_Z (Qfloor t)) (1 # 2)) as [Ht|Ht|Ht];
      destruct (Qcompare_spec (u - inject_Z (Qfloor t)) (1 # 2)) as [Hu|Hu|Hu];
      try lia; try (destruct (Z.even (Qfloor t)); lia); exfalso; lra.
  - pose proof (rne_bounds t). pose proof (rne_bounds u). lia.
Qed.

(** *** The binade of a positive number *)

Lemma log2_bounds (n : Z) :
  (0 < n)%Z -> pow2 (Z.log2 n) <= inject_Z n /\ inject_Z n < pow2 (Z.log2 n + 1).
Proof.
  intros Hn. destruct (Z.log2_spec n Hn) as [Hlo Hhi].
  pose proof (Z.log2_nonneg n) as Hnn.
  rewrite !pow2_int by lia. split.
  - now rewrite <- Zle_Qle.
  - replace (Z.log2 n + 1)%Z with (Z.succ (Z.log2 n)) by lia.
    now rewrite <- Zlt_Qlt.
Qed.

Lemma binade_spec (a : Q) :
  0 < a -> pow2 (binade a - 1) <= a /\ a < pow2 (binade a).
Proof.
  intros Ha. destruct a as [n d].
  assert (Hn : (0 < n)%Z) by (unfold Qlt in Ha; simpl in Ha; lia).
  destruct (log2_bounds n Hn) as [Hnlo Hnhi].
  destruct (log2_bounds (Zpos d) ltac:(lia)) as [Hdlo Hdhi].
  assert (Hval : (n # d) * inject_Z (Zpos d) == inject_Z n).
  { unfold Qeq, Qmult, inject_Z. simpl. lia. }
  set (ln := Z.log2 n) in *. set (ld := Z.log2 (Zpos d)) in *.
  assert (Hlow : pow2 (ln - ld - 1) < n # d).
  { assert (H1 : pow2 (ln - ld - 1) * pow2 (ld + 1) == pow2 ln).
    { rewrite <- pow2_add. now replace (ln - ld - 1 + (ld + 1))%Z with ln by lia. }
    pose proof (pow2_pos (ln - ld - 1)). pose proof (pow2_pos (ld + 1)).
    apply (Qmult_lt_r _ _ (inject_Z (Zpos d))); [reflexivity|].
    rewrite Hval. eapply Qlt_le_trans; [|exact Hnlo]. rewrite <- H1.
    apply Qmult_lt_l; assumption. }
  assert (Hhigh : n # d < pow2 (ln - ld + 1)).
  { assert (H1 : pow2 (ln - ld + 1) * pow2 ld == pow2 (ln + 1)).
    { rewrite <- pow2_add. now replace (ln - ld + 1 + ld)%Z with (ln + 1)%Z by lia. }
    pose proof (pow2_pos (ln - ld + 1)). pose proof (pow2_pos ld).
    apply (Qmult_lt_r _ _ (inject_Z (Zpos d))); [reflexivity|].
    rewrite Hval. eapply Qlt_le_trans; [exact Hnhi|]. rewrite <- H1.
    apply Qmult_le_l; assumption. }
  unfold binade. cbn [Qnum Qden]. fold ln ld.
  destruct (Qle_bool (pow2 (ln - ld)) (n # d)) eqn:Hcmp.
  - apply Qle_bool_iff in Hcmp.
    replace (ln - ld + 1 - 1)%Z with (ln - ld)%Z by lia. split; assumption.
  - assert (Hlt : n # d < pow2 (ln - ld)).
    { apply Qnot_le_lt. intros H. apply Qle_bool_iff in H. congruence. }
    split; [apply Qlt_le_weak; exact Hlow|exact Hlt].
Qed.

Lemma binade_mono (a b : Q) : 0 < a -> a <= b -> (binade a <= binade b)%Z.
Proof.
  intros Ha Hab.
  destruct (binade_spec a Ha) as [Hlo _].
  destruct (binade_spec b ltac:(lra)) as [_ Hhi].
  assert (H : pow2 (binade a - 1) < pow2 (binade b)) by lra.
  apply pow2_lt_inv in H. lia.
Qed.

(** *** Rounding to a format is monotone *)

Lemma grid_le (a : Q) (q e : Z) :
  (q <= e)%Z -> a <= pow2 e -> inject_Z (rne (a / pow2 q)) * pow2 q <= pow2 e.
Proof.
  intros Hqe Ha. rewrite (pow2_split e q Hqe).
  apply Qmult_le_compat_r; [|apply Qlt_le_weak, pow2_pos].
  rewrite <- Zle_Qle. rewrite <- (rne_int (2 ^ (e - q))).
  apply rne_mono. rewrite <- (int_div_pow2 (2 ^ (e - q)) q), <- pow2_split by exact Hqe.
  now apply div_pow2_le.
Qed.

Lemma grid_ge (b : Q) (q e : Z) :
  (q <= e)%Z -> pow2 e <= b -> pow2 e <= inject_Z (rne (b / pow2 q)) * pow2 q.
Proof.
  intros Hqe Hb. rewrite (pow2_split e q Hqe).
  apply Qmult_le_compat_r; [|apply Qlt_le_weak, pow2_pos].
  rewrite <- Zle_Qle. rewrite <- (rne_int (2 ^ (e - q))) at 1.
  apply rne_mono. rewrite <- (int_div_pow2 (2 ^ (e - q)) q), <- pow2_split by exact Hqe.
  now apply div_pow2_le.
Qed.

Lemma nearest_nonneg (fmt : format) (a : Q) : 0 < a -> 0 <= nearest fmt a.
Proof.
  intros Ha. unfold nearest. apply Qmult_le_0_compat; [|apply Qlt_le_weak, pow2_pos].
  assert (Ht : 0 <= a / pow2 (ulp_exp fmt a)).
  { apply Qlt_le_weak, Qlt_shift_div_l; [apply pow2_pos|]. now rewrite Qmult_0_l. }
  apply (rne_mono (inject_Z 0)) in Ht. rewrite rne_int, Zle_Qle in Ht. exact Ht.
Qed.

Lemma nearest_mono (fmt : format) (a b : Q) :
  (1 <= prec fmt)%Z -> 0 < a -> a <= b -> nearest fmt a <= nearest fmt b.
Proof.
  intros Hprec Ha Hab.
  assert (Hb : 0 < b) by lra.
  pose proof (binade_mono a b Ha Hab) as HE.
  destruct (binade_spec a Ha) as [_ Hahi].
  destruct (binade_spec b Hb) as [Hblo _].
  unfold nearest, ulp_exp.
  set (qa := Z.max (binade a - prec fmt) (emin fmt)).
  set (qb := Z.max (binade b - prec fmt) (emin fmt)).
  destruct (Z.eq_dec qa qb) as [Heq|Hne].
  - rewrite Heq. apply Qmult_le_compat_r; [|apply Qlt_le_weak, pow2_pos].
    rewrite <- Zle_Qle. apply rne_mono. now apply div_pow2_le.
  - assert (Hqb : qb = (binade b - prec fmt)%Z) by lia.
    assert (HEab : (binade a <= binade b - 1)%Z) by lia.
    apply Qle_trans with (pow2 (binade b - 1)).
    + apply grid_le; [lia|].
      apply Qlt_le_weak. eapply Qlt_le_trans; [exact Hahi|]. now apply pow2_le.
    + apply grid_ge; [lia|exact Hblo].
Qed.

Lemma fle_refl_not_nan (x : fp) : is_nan x = false -> fle x x = true.
Proof.
  destruct x as [|[]|q]; try discriminate; try reflexivity.
  intros _. apply Qle_bool_iff. lra.
Qed.

Lemma round_pos_mono (fmt : format) (a b : Q) :
  (1 <= prec fmt)%Z -> 0 < a -> a <= b ->
  fle (round_pos fmt a) (round_pos fmt b) = true.
Proof.
  intros Hprec Ha Hab. pose proof (nearest_mono fmt a b Hprec Ha Hab) as Hmono.
  unfold round_pos.
  destruct (Qle_bool (pow2 (emax fmt)) (Qred (nearest fmt a))) eqn:Hoa;
    destruct (Qle_bool (pow2 (emax fmt)) (Qred (nearest fmt b))) eqn:Hob;
    try reflexivity.
  - apply Qle_bool_iff in Hoa. rewrite Qred_correct in Hoa.
    assert (H : pow2 (emax fmt) <= Qred (nearest fmt b))
      by (rewrite Qred_correct; lra).
    apply Qle_bool_iff in H. congruence.
  - cbn [fle]. apply Qle_bool_iff. now rewrite !Qred_correct.
Qed.

Lemma round_pos_sign (fmt : format) (a : Q) :
  0 < a -> fle (Fin 0) (round_pos fmt a) = true.
Proof.
  intros Ha. unfold round_pos.
  destruct (Qle_bool (pow2 (emax fmt)) (Qred (nearest fmt a))); [reflexivity|].
  cbn [fle]. apply Qle_bool_iff. rewrite Qred_correct. now apply nearest_nonneg.
Qed.

(** Negation reverses the order. *)
Lemma fle_fneg (x y : fp) : fle x y = true -> fle (fneg y) (fneg x) = true.
Proof.
  destruct x as [|[]|p], y as [|[]|q]; cbn; try discriminate; try reflexivity.
  intros H. apply Qle_bool_iff in H. apply Qle_bool_iff. lra.
Qed.

Lemma fle_trans (x y z : fp) : fle x y = true -> fle y z = true -> fle x z = true.
Proof.
  destruct x as [|[]|p], y as [|[]|q], z as [|[]|r]; cbn;
    try discriminate; try reflexivity.
  intros H1 H2. apply Qle_bool_iff in H1, H2. apply Qle_bool_iff. lra.
Qed.

Lemma round_pos_not_nan (fmt : format) (a : Q) : is_nan (round_pos fmt a) = false.
Proof.
  unfold round_pos. now destruct (Qle_bool (pow2 (emax fmt)) (Qred (nearest fmt a))).
Qed.

(** Converting keeps NaN, and makes none. *)
Lemma round_is_nan (fmt : format) (x : fp) : is_nan (round fmt x) = is_nan x.
Proof.
  destruct x as [|s|q]; try reflexivity. cbn [round is_nan].
  destruct (q ?= 0); [reflexivity| |apply round_pos_not_nan].
  pose proof (round_pos_not_nan fmt (- q)) as H.
  now destruct (round_pos fmt (- q)).
Qed.

Lemma fle_neg_inf (x : fp) : is_nan x = false -> fle (Inf true) x = true.
Proof. now destruct x as [|[]|q]. Qed.

Lemma fle_pos_inf (x : fp) : is_nan x = false -> fle x (Inf false) = true.
Proof. now destruct x as [|[]|q]. Qed.

(** Converting to a format keeps the order: the conversion of the smaller
    number is not above the conversion of the larger. *)
Theorem round_mono (fmt : format) (x y : fp) :
  (1 <= prec fmt)%Z -> fle x y = true -> fle (round fmt x) (round fmt y) = true.
Proof.
  intros Hprec Hxy.
  destruct x as [|sx|p]; [discriminate| |].
  { destruct sx.
    - apply fle_neg_inf. rewrite round_is_nan. now destruct y.
    - destruct y as [|[]|q]; try discriminate. reflexivity. }
  destruct y as [|sy|q]; [discriminate| |].
  { destruct sy; [discriminate|]. apply fle_pos_inf. now rewrite round_is_nan. }
  cbn [fle] in Hxy. apply Qle_bool_iff in Hxy. cbn [round].
  destruct (Qcompare_spec p 0) as [Hp|Hp|Hp];
    destruct (Qcompare_spec q 0) as [Hq|Hq|Hq]; try (exfalso; lra).
  - apply Qle_bool_iff. lra.
  - now apply round_pos_sign.
  - apply (fle_fneg (Fin 0)), round_pos_sign. lra.
  - apply fle_fneg, round_pos_mono; [exact Hprec|lra|lra].
  - apply fle_trans with (Fin 0).
    + apply (fle_fneg (Fin 0)), round_pos_sign. lra.
    + now apply round_pos_sign.
  - apply round_pos_mono; [exact Hprec|exact Hp|exact Hxy].
Qed.

(** The conversion is the rounding of the Standard Library's float
    specification: on numbers that round up, down, to a tie, to a
    subnormal, to zero and to infinity; and it leaves a double as it is when
    the format is double precision. *)
#[local] Set Warnings "-inexact-float".

Example round_agrees_with_reference :
  Forall (fun x : float =>
            round binary32 (of_float x) = spec_value (round_spec 24 128 (Prim2SF x)) /\
            round binary64 (of_float x) = of_float x)
    [0.7; 0.1; -0.1; 0.5; 16777217; 16777219; 1e-40; 1e-46; 7.006492321624085e-46;
     2.1019476964872256e-45; 3.4028235677973362e38; 3.4028235677973366e38;
     1e300; -1e300; infinity; nan]%float.
Proof. repeat constructor; vm_compute; reflexivity. Qed.

Example double_0_7_is_0_7 : of_float 0.7 = double_0_7.
Proof. vm_compute. reflexivity. Qed.

End FloatFacts.

(** ** [MultiCategoryList.analyze_pred] *)

Module TensorFacts.

Import Float FloatFacts Tensor.



Lemma prec_format_of (d : dtype) : 1 <= prec (format_of d).
Proof. destruct d; cbn; lia. Qed.

Lemma to_dtype_mono (d : dtype) (x y : fp) :
  fle x y = true -> fle (to_dtype d x) (to_dtype d y) = true.
Proof. apply round_mono, prec_format_of. Qed.








Example analyze_pred_sample :
  analyze_pred sample_pred None =
  mkFloat Float32 (mkTensor [2; 2]%nat [Fin 0; Fin 1; Fin 1; Fin 0]).
Proof. vm_compute. reflexivity. Qed.

(** *** Composition and NaN *)

Lemma analyze_pred_storage (pred : ftensor) (thresh : fp) :
  analyze_pred pred (Some thresh) =
  mkFloat Float32
    (mkTensor (shape (values pred))
       (List.map (thresholded (to_dtype (dtype_of pred) thresh)) (storage (values pred)))).
Proof.
  unfold analyze_pred, float_, ge, tmap. cbn [shape storage].
  f_equal. f_equal. rewrite List.map_map. reflexivity.
Qed.

Lemma thresholded_again (cth cth' x : fp) :
  fle cth' (Fin 0) = false -> fle cth' (Fin 1) = true ->
  thresholded cth' (thresholded cth x) = thresholded cth x.
Proof.
  intros Hpos Hle. unfold thresholded at 2 3.
  destruct (fle cth x); unfold thresholded.
  - now rewrite Hle.
  - now rewrite Hpos.
Qed.

(** Thresholding is idempotent for a threshold that is still in (0, 1]
    once converted to single precision, the dtype of the tensor
    [analyze_pred] returns: a second [analyze_pred] with such a threshold,
    the default 0.5 among them, leaves that tensor as it is.  (A positive
    threshold too small for single precision is converted to 0.0 and
    does not qualify.) *)
Theorem analyze_pred_idempotent (pred : ftensor) (thresh thresh' : fp) :
  fle (to_dtype Float32 thresh') (Fin 0) = false ->
  fle (to_dtype Float32 thresh') (Fin 1) = true ->
  analyze_pred (analyze_pred pred (Some thresh)) (Some thresh')
  = analyze_pred pred (Some thresh) /\
  analyze_pred (analyze_pred pred (Some thresh)) None
  = analyze_pred pred (Some thresh).
Proof.
  intros Hpos Hle.
  assert (Hgen : forall th',
            fle (to_dtype Float32 th') (Fin 0) = false ->
            fle (to_dtype Float32 th') (Fin 1) = true ->
            analyze_pred (analyze_pred pred (Some thresh)) (Some th')
            = analyze_pred pred (Some thresh)).
  { intros th' H0 H1. rewrite (analyze_pred_storage (analyze_pred pred (Some thresh))).
    rewrite (analyze_pred_storage pred). cbn [dtype_of values shape storage].
    f_equal. f_equal. rewrite List.map_map. apply List.map_ext.
    intros x. now apply thresholded_again. }
  split; [now apply Hgen|].
  change (analyze_pred (analyze_pred pred (Some thresh)) None)
    with (analyze_pred (analyze_pred pred (Some thresh)) (Some default_thresh)).
  apply Hgen; vm_compute; reflexivity.
Qed.

(** Every threshold from the smallest positive single-precision number
    up to 1 qualifies. *)
Lemma threshold_in_range (thresh' : fp) :
  fle single_tiny thresh' = true -> fle thresh' (Fin 1) = true ->
  fle (to_dtype Float32 thresh') (Fin 0) = false /\
  fle (to_dtype Float32 thresh') (Fin 1) = true.
Proof.
  intros Hlo Hhi.
  pose proof (to_dtype_mono Float32 _ _ Hlo) as Hlo'.
  pose proof (to_dtype_mono Float32 _ _ Hhi) as Hhi'.
  assert (Htiny : to_dtype Float32 single_tiny = single_tiny) by (vm_compute; reflexivity).
  assert (Hone : to_dtype Float32 (Fin 1) = Fin 1) by (vm_compute; reflexivity).
  rewrite Htiny in Hlo'. rewrite Hone in Hhi'. split; [|exact Hhi'].
  destruct (fle (to_dtype Float32 thresh') (Fin 0)) eqn:H0; [|reflexivity].
  pose proof (fle_trans _ _ _ Hlo' H0) as Habs. vm_compute in Habs. discriminate Habs.
Qed.

Lemma analyze_pred_idempotent_witness :
  fle (to_dtype Float32 double_0_7) (Fin 0) = false /\
  fle (to_dtype Float32 double_0_7) (Fin 1) = true /\
  analyze_pred (analyze_pred sample_pred (Some (Fin (1 # 4)))) (Some double_0_7)
  = analyze_pred sample_pred (Some (Fin (1 # 4))).
Proof.
  destruct (threshold_in_range double_0_7) as [Hpos Hle];
    [vm_compute; reflexivity|vm_compute; reflexivity|].
  split; [exact Hpos|]. split; [exact Hle|].
  apply (analyze_pred_idempotent sample_pred (Fin (1 # 4)) double_0_7 Hpos Hle).
Defined.



End TensorFacts.

(** ** Subscripts *)

Lemma py_index_in_range {A} (l : list A) (i : Z) :
  0 <= i < Z.of_nat (length l) -> py_index l i = l !! Z.to_nat i.
Proof.
  intros [H0 Hn]. unfold py_index.
  destruct (Z.leb_spec 0 i); [|lia].
  destruct (Z.ltb_spec i (Z.of_nat (length l))); [reflexivity|lia].
Qed.

Lemma py_index_is_Some {A} (l : list A) (i : Z) :
  0 <= i < Z.of_nat (length l) -> exists a, py_index l i = Some a.
Proof.
  intros H. rewrite py_index_in_range by exact H.
  apply lookup_lt_is_Some_2. lia.
Qed.

(** ** [ImageItemList.get] *)

Module ImageItemListFacts.

Import ImageItemList.

Section WithLibrary.

Variable Image : Type.
Variable Size : Type.
Variable size : Image -> Size.
Variable open_image : string -> exn + Image.

(** [get] as one case analysis: the subscript, then the opening. *)
Lemma get_unfold (self : t Size) (i : Z) :
  get size open_image i self =
  match py_index (items self) i with
  | None => (inl IndexError, self)
  | Some fn =>
      match open_image fn with
      | inl e => (inl e, self)
      | inr res => (inr res, mk (items self) (<[i := size res]> (sizes self)))
      end
  end.
Proof.
  unfold get, ItemList_get, open, set_sizes, mbind, py_bind, mret, py_ret, lift_opt.
  destruct (py_index (items self) i) as [fn|]; simpl; [|reflexivity].
  destruct (open_image fn) as [e|res]; reflexivity.
Qed.

(** C2: for every index [i] in range of an [ImageItemList], [get(i)] reads
    the file name [self.items[i]], opens it with [self.open], which is
    [open_image]; when that yields an image [res], [get] stores [res.size] at
    [self.sizes[i]] and returns [res], no element of [items] and no other
    entry of [sizes] being changed. *)
Theorem get_opens_and_records_size (self : t Size) (i : Z) :
  0 <= i < Z.of_nat (length (items self)) ->
  exists fn : string,
    items self !! Z.to_nat i = Some fn /\
    ItemList_get i self = (inr fn, self) /\
    open open_image fn self = (open_image fn, self) /\
    forall res : Image, open_image fn = inr res ->
      exists self' : t Size,
        get size open_image i self = (inr res, self') /\
        items self' = items self /\
        sizes self' !! i = Some (size res) /\
        forall j : Z, j <> i -> sizes self' !! j = sizes self !! j.
Proof.
  intros Hi.
  destruct (py_index_is_Some (items self) i Hi) as [fn Hfn].
  exists fn. split; [now rewrite <- py_index_in_range|].
  split; [unfold ItemList_get; now rewrite Hfn|].
  split; [reflexivity|].
  intros res Hres.
  exists (mk (items self) (<[i := size res]> (sizes self))).
  rewrite get_unfold, Hfn, Hres. split; [reflexivity|].
  split; [reflexivity|]. simpl. split.
  - apply lookup_insert_eq.
  - intros j Hj. now apply lookup_insert_ne.
Qed.

(** An index out of range, or a file that cannot be opened, raises and
    leaves the list as it was. *)
Lemma get_raises_unchanged (self : t Size) (i : Z) (e : exn) (self' : t Size) :
  get size open_image i self = (inl e, self') -> self' = self.
Proof.
  rewrite get_unfold.
  destruct (py_index (items self) i) as [fn|]; [|now intros [= _ <-]].
  destruct (open_image fn); [now intros [= _ <-]|discriminate].
Qed.

End WithLibrary.

Lemma get_opens_and_records_size_witness :
  0 <= 1 < Z.of_nat (length (items demo_list)) /\
  get snd demo_open_image 1 demo_list =
    (inr ("b.png", (32, 32)),
     mk ["a.png"; "b.png"; "gone.png"] (<[1 := (32, 32)]> {[ 0 := (28, 28) ]})).
Proof.
  assert (H : 0 <= 1 < Z.of_nat (length (items demo_list))) by (simpl; lia).
  split; [exact H|].
  destruct (get_opens_and_records_size _ _ snd demo_open_image demo_list 1 H)
    as (fn & Hfn & _).
  rewrite get_unfold. reflexivity.
Defined.

Lemma get_raises_unchanged_witness :
  exists self' : t (Z * Z),
    get snd demo_open_image 2 demo_list = (inl OSError, self') /\ self' = demo_list.
Proof.
  destruct (get snd demo_open_image 2 demo_list) as [r self'] eqn:Hrun.
  assert (Hr : r = inl OSError) by (vm_compute in Hrun; congruence).
  subst r. exists self'. split; [reflexivity|].
  exact (get_raises_unchanged _ _ snd demo_open_image demo_list 2 OSError self' Hrun).
Defined.

(** *** Negative indices, and what [sizes] holds *)

Section MoreOnGet.

Variable Image : Type.
Variable Size : Type.
Variable size : Image -> Size.
Variable open_image : string -> exn + Image.

Lemma py_index_negative {A} (l : list A) (i : Z) :
  - Z.of_nat (length l) <= i < 0 ->
  py_index l i = py_index l (Z.of_nat (length l) + i) /\
  exists a : A, py_index l i = Some a.
Proof.
  intros Hi.
  assert (Hpos : py_index l (Z.of_nat (length l) + i)
                 = l !! Z.to_nat (Z.of_nat (length l) + i))
    by (apply py_index_in_range; lia).
  assert (Hneg : py_index l i = l !! Z.to_nat (Z.of_nat (length l) + i)).
  { unfold py_index. destruct (Z.leb_spec 0 i); [lia|]. cbn [andb].
    destruct (Z.leb_spec (- Z.of_nat (length l)) i); [|lia].
    destruct (Z.ltb_spec i 0); [reflexivity|lia]. }
  split; [congruence|].
  rewrite Hneg. apply lookup_lt_is_Some_2. lia.
Qed.

(** An index counted from the end fetches the item it names, the one at
    [len(items) + i], but records its size under the key [i] as given:
    the entry of [sizes] at [len(items) + i] is not touched. *)
Theorem get_negative_index_keeps_key (self : t Size) (i : Z) :
  - Z.of_nat (length (items self)) <= i < 0 ->
  exists fn : string,
    items self !! Z.to_nat (Z.of_nat (length (items self)) + i) = Some fn /\
    forall res : Image, open_image fn = inr res ->
      get size open_image i self =
        (inr res, mk (items self) (<[i := size res]> (sizes self))) /\
      fst (get size open_image (Z.of_nat (length (items self)) + i) self) = inr res /\
      sizes (snd (get size open_image i self))
        !! (Z.of_nat (length (items self)) + i)
      = sizes self !! (Z.of_nat (length (items self)) + i).
Proof.
  intros Hi. destruct (py_index_negative (items self) i Hi) as [Hsame [fn Hfn]].
  exists fn. split.
  - rewrite <- py_index_in_range by lia. congruence.
  - intros res Hres. rewrite !get_unfold, <- Hsame, Hfn, Hres.
    split; [reflexivity|]. split; [reflexivity|].
    cbn [snd sizes]. apply lookup_insert_ne. lia.
Qed.

(** An index outside [-len(items), len(items)) raises [IndexError]: nothing
    is opened and nothing is recorded. *)
Theorem get_out_of_range (self : t Size) (i : Z) :
  i < - Z.of_nat (length (items self)) \/ Z.of_nat (length (items self)) <= i ->
  get size open_image i self = (inl IndexError, self).
Proof.
  intros Hi. rewrite get_unfold.
  assert (Hnone : py_index (items self) i = None).
  { unfold py_index.
    destruct (Z.leb_spec 0 i), (Z.ltb_spec i (Z.of_nat (length (items self))));
      cbn [andb]; try lia;
      destruct (Z.leb_spec (- Z.of_nat (length (items self))) i), (Z.ltb_spec i 0);
      cbn [andb]; try lia; reflexivity. }
  now rewrite Hnone.
Qed.

(** [get] keeps [sizes] truthful, whatever its outcome: if every recorded
    size was the size of the image at its index before the call, so it is
    after; and the only key a call can add is its own index. *)
Theorem get_keeps_sizes_recorded (self self' : t Size) (i : Z) (r : exn + Image) :
  sizes_recorded size open_image self ->
  get size open_image i self = (r, self') ->
  sizes_recorded size open_image self' /\
  items self' = items self /\
  forall j : Z, j <> i -> sizes self' !! j = sizes self !! j.
Proof.
  intros Hinv. rewrite get_unfold.
  destruct (py_index (items self) i) as [fn|] eqn:Hfn;
    [|intros [= _ <-]; split; [exact Hinv|split; [reflexivity|reflexivity]]].
  destruct (open_image fn) as [e|res] eqn:Hres;
    [intros [= _ <-]; split; [exact Hinv|split; [reflexivity|reflexivity]]|].
  intros [= _ <-]. split; [|split; [reflexivity|]].
  - intros j sz. cbn [sizes items].
    destruct (decide (j = i)) as [->|Hne].
    + rewrite lookup_insert_eq. intros [= <-]. now exists fn, res.
    + rewrite lookup_insert_ne by congruence. apply Hinv.
  - intros j Hne. cbn [sizes]. apply lookup_insert_ne. congruence.
Qed.

End MoreOnGet.

Lemma get_negative_index_keeps_key_witness :
  - Z.of_nat (length (items demo_list)) <= -2 < 0 /\
  get snd demo_open_image (-2) demo_list =
    (inr ("b.png", (32, 32)),
     mk ["a.png"; "b.png"; "gone.png"] (<[-2 := (32, 32)]> {[ 0 := (28, 28) ]})) /\
  sizes (snd (get snd demo_open_image (-2) demo_list)) !! 1 = None.
Proof.
  assert (H : - Z.of_nat (length (items demo_list)) <= -2 < 0) by (simpl; lia).
  split; [exact H|].
  destruct (get_negative_index_keeps_key _ _ snd demo_open_image demo_list (-2) H)
    as (fn & Hfn & Hget).
  assert (fn = "b.png") as -> by (vm_compute in Hfn; congruence).
  destruct (Hget ("b.png", (32, 32)) eq_refl) as (Hrun & _ & Hkey).
  split; [exact Hrun|]. exact Hkey.
Defined.

Lemma get_out_of_range_witness :
  (-4 < - Z.of_nat (length (items demo_list)) \/ Z.of_nat (length (items demo_list)) <= -4) /\
  get snd demo_open_image (-4) demo_list = (inl IndexError, demo_list) /\
  get snd demo_open_image 3 demo_list = (inl IndexError, demo_list).
Proof.
  assert (H : -4 < - Z.of_nat (length (items demo_list))
              \/ Z.of_nat (length (items demo_list)) <= -4) by (left; simpl; lia).
  split; [exact H|]. split.
  - exact (get_out_of_range _ _ snd demo_open_image demo_list (-4) H).
  - apply get_out_of_range. right. simpl. lia.
Defined.

Lemma demo_list_recorded : sizes_recorded snd demo_open_image demo_list.
Proof.
  intros i sz Hi.
  destruct (decide (i = 0)) as [->|Hne].
  - injection Hi as <-. now exists "a.png", ("a.png", (28, 28)).
  - unfold demo_list in Hi. cbn [sizes] in Hi.
    rewrite lookup_singleton_ne in Hi by congruence. discriminate.
Qed.

Lemma get_keeps_sizes_recorded_witness :
  sizes_recorded snd demo_open_image demo_list /\
  exists self' : t (Z * Z),
    get snd demo_open_image 1 demo_list = (inr ("b.png", (32, 32)), self') /\
    sizes_recorded snd demo_open_image self' /\
    sizes self' !! 0 = Some (28, 28).
Proof.
  split; [exact demo_list_recorded|].
  destruct (get snd demo_open_image 1 demo_list) as [r self'] eqn:Hrun.
  assert (Hr : r = inr ("b.png", (32, 32))) by (vm_compute in Hrun; congruence).
  subst r. exists self'. split; [reflexivity|].
  destruct (get_keeps_sizes_recorded _ _ snd demo_open_image demo_list self' 1 _
              demo_list_recorded Hrun) as (Hinv & _ & Hframe).
  split; [exact Hinv|]. now rewrite Hframe.
Defined.

End ImageItemListFacts.

(** ** The object store *)

Module HeapFacts.

Import Heap.

Lemma getattr_inst (h : heap) (o : loc) (c : string) (a : gmap string value)
  (name : string) (v : value) :
  h !! o = Some (OInst c a) -> a !! name = Some v ->
  getattr o name h = (inr v, h).
Proof. intros Ho Hv. unfold getattr. now rewrite Ho, Hv. Qed.

Lemma setattr_inst (h : heap) (o : loc) (c : string) (a : gmap string value)
  (name : string) (v : value) :
  h !! o = Some (OInst c a) ->
  setattr o name v h = (inr tt, <[o := OInst c (<[name := v]> a)]> h).
Proof. intros Ho. unfold setattr. now rewrite Ho. Qed.

Lemma len_sized (h : heap) (v : value) (n : Z) :
  len_of h v = Some n -> len v h = (inr n, h).
Proof. intros Hn. unfold len. now rewrite Hn. Qed.

(** Reading an attribute never changes the store. *)
Lemma getattr_state (h h' : heap) (o : loc) (name : string) (r : exn + value) :
  getattr o name h = (r, h') -> h' = h.
Proof.
  unfold getattr. destruct (h !! o) as [[|c a]|]; simpl.
  - now intros [= _ <-].
  - destruct (a !! name); now intros [= _ <-].
  - now intros [= _ <-].
Qed.

(** Rebinding attributes of an instance does not change the length of a
    sized object: lists are other objects of the store. *)
Lemma len_of_insert_inst (h : heap) (o : loc) (c : string) (a a' : gmap string value)
  (v : value) :
  h !! o = Some (OInst c a) ->
  len_of (<[o := OInst c a']> h) v = len_of h v.
Proof.
  intros Ho. destruct v as [| | |l]; try reflexivity.
  unfold len_of. destruct (decide (o = l)) as [->|Hne].
  - now rewrite lookup_insert_eq, Ho.
  - now rewrite lookup_insert_ne.
Qed.

Lemma attr_insert_eq (h : heap) (o : loc) (c : string) (a : gmap string value)
  (name : string) :
  attr (<[o := OInst c a]> h) o name = a !! name.
Proof. unfold attr. now rewrite lookup_insert_eq. Qed.

End HeapFacts.

(** ** [SegmentationProcessor] *)

Module SegmentationProcessorFacts.

Import Heap HeapFacts SegmentationProcessor.

Ltac run_bind := unfold mbind, py_bind, mret, py_ret.

(** Construction: a new instance whose only attribute is [classes], bound
    to the very value [ds.classes] holds. *)
Lemma create_stores_classes (h : heap) (ds0 : loc) (c0 : string)
  (a0 : gmap string value) (v : value) :
  h !! ds0 = Some (OInst c0 a0) -> a0 !! "classes" = Some v ->
  h !! fresh (dom h) = None /\
  create ds0 h =
    (inr (fresh (dom h)),
     <[fresh (dom h) := OInst "SegmentationProcessor" {[ "classes" := v ]}]> h).
Proof.
  intros Hds Hv.
  assert (Hfresh : h !! fresh (dom h) = None)
    by (apply not_elem_of_dom, is_fresh).
  split; [exact Hfresh|].
  set (p := fresh (dom h)) in *.
  assert (Hne : p <> ds0) by (intros ->; congruence).
  unfold create, __init__, alloc. run_bind. fold p.
  erewrite getattr_inst; [|rewrite lookup_insert_ne; eauto|exact Hv].
  cbv beta iota.
  erewrite setattr_inst; [|apply lookup_insert_eq].
  now rewrite insert_insert_eq, insert_empty.
Qed.

(** The whole effect of a [process] call whose right-hand side evaluates. *)
Lemma process_assigns (h : heap) (p ds : loc) (pc c : string)
  (pa a : gmap string value) (v : value) (n : Z) :
  h !! p = Some (OInst pc pa) -> pa !! "classes" = Some v ->
  len_of h v = Some n -> h !! ds = Some (OInst c a) ->
  process p ds h =
    (inr tt, <[ds := OInst c (<["c" := VInt n]> (<["classes" := v]> a))]> h).
Proof.
  intros Hp Hv Hn Hds. unfold process. run_bind.
  rewrite (getattr_inst _ _ _ _ _ _ Hp Hv). cbv beta iota.
  rewrite (getattr_inst _ _ _ _ _ _ Hp Hv). cbv beta iota.
  rewrite (len_sized _ _ _ Hn). cbv beta iota.
  rewrite (setattr_inst _ _ _ _ _ _ Hds). cbv beta iota.
  erewrite setattr_inst; [|apply lookup_insert_eq].
  now rewrite insert_insert_eq.
Qed.

(** C4: a [SegmentationProcessor] constructed from [ds0] stores
    [ds0.classes], and nothing else, at construction time; and [process(ds)]
    on an item list [ds] does nothing apart from setting [ds.classes] to the
    stored classes and [ds.c] to their length: every other attribute of
    [ds], its class, the processor's own state and every other object of
    the store are left unchanged. *)
Theorem processor_stores_and_sets_classes (h : heap) (ds0 : loc) (c0 : string)
  (a0 : gmap string value) (v : value) :
  h !! ds0 = Some (OInst c0 a0) -> a0 !! "classes" = Some v ->
  exists p : loc,
    h !! p = None /\
    create ds0 h = (inr p, <[p := OInst "SegmentationProcessor" {[ "classes" := v ]}]> h) /\
    forall (h1 : heap) (ds : loc) (c : string) (a : gmap string value) (n : Z),
      h1 !! p = Some (OInst "SegmentationProcessor" {[ "classes" := v ]}) ->
      h1 !! ds = Some (OInst c a) -> ds <> p -> len_of h1 v = Some n ->
      exists h2 : heap,
        process p ds h1 = (inr tt, h2) /\
        attr h2 ds "classes" = Some v /\
        attr h2 ds "c" = Some (VInt n) /\
        (forall name : string,
           name <> "classes" -> name <> "c" -> attr h2 ds name = a !! name) /\
        class_of h2 ds = Some c /\
        h2 !! p = Some (OInst "SegmentationProcessor" {[ "classes" := v ]}) /\
        forall l : loc, l <> ds -> h2 !! l = h1 !! l.
Proof.
  intros Hds0 Hv.
  destruct (create_stores_classes h ds0 c0 a0 v Hds0 Hv) as [Hfresh Hcreate].
  exists (fresh (dom h)). split; [exact Hfresh|]. split; [exact Hcreate|].
  intros h1 ds c a n Hp Hds Hne Hn.
  eexists. split.
  - eapply process_assigns; eauto.
  - split; [|split; [|split; [|split; [|split]]]].
    + rewrite attr_insert_eq, lookup_insert_ne by discriminate.
      apply lookup_insert_eq.
    + rewrite attr_insert_eq. apply lookup_insert_eq.
    + intros name H1 H2.
      rewrite attr_insert_eq, !lookup_insert_ne by congruence. reflexivity.
    + unfold class_of. now rewrite lookup_insert_eq.
    + rewrite lookup_insert_ne by exact Hne. exact Hp.
    + intros l Hl. rewrite lookup_insert_ne by congruence. reflexivity.
Qed.

Lemma processor_stores_and_sets_classes_witness :
  demo_heap !! 1%positive =
    Some (OInst "SegmentationLabelList"
            {[ "classes" := VRef 2%positive; "path" := VStr "camvid" ]}) /\
  ({[ "classes" := VRef 2%positive; "path" := VStr "camvid" ]} : gmap string value)
    !! "classes" = Some (VRef 2%positive) /\
  exists (p : loc) (h1 h2 : heap),
    demo_heap !! p = None /\
    create 1%positive demo_heap = (inr p, h1) /\
    process p 3%positive h1 = (inr tt, h2) /\
    attr h2 3%positive "classes" = Some (VRef 2%positive) /\
    attr h2 3%positive "c" = Some (VInt 3) /\
    attr h2 3%positive "path" = Some (VStr "test") /\
    h2 !! p = h1 !! p.
Proof.
  assert (H1 : demo_heap !! 1%positive =
    Some (OInst "SegmentationLabelList"
            {[ "classes" := VRef 2%positive; "path" := VStr "camvid" ]}))
    by reflexivity.
  assert (H2 : ({[ "classes" := VRef 2%positive; "path" := VStr "camvid" ]}
                : gmap string value) !! "classes" = Some (VRef 2%positive))
    by reflexivity.
  split; [exact H1|]. split; [exact H2|].
  destruct (processor_stores_and_sets_classes demo_heap 1%positive _ _ _ H1 H2)
    as (p & Hp & Hc & Hprocess).
  assert (Hp2 : p <> 2%positive) by (intros ->; discriminate Hp).
  assert (Hp3 : p <> 3%positive) by (intros ->; discriminate Hp).
  destruct (Hprocess
              (<[p := OInst "SegmentationProcessor" {[ "classes" := VRef 2%positive ]}]>
                 demo_heap)
              3%positive "SegmentationLabelList"
              {[ "classes" := VNone; "c" := VInt 7; "path" := VStr "test" ]} 3)
    as (h2 & Hrun & Hclasses & Hlen & Hother & _ & Hself & _).
  - apply lookup_insert_eq.
  - rewrite lookup_insert_ne by exact Hp3. reflexivity.
  - congruence.
  - unfold len_of. rewrite lookup_insert_ne by exact Hp2. reflexivity.
  - exists p, (<[p := OInst "SegmentationProcessor" {[ "classes" := VRef 2%positive ]}]>
                 demo_heap), h2.
    split; [exact Hp|]. split; [exact Hc|].
    split; [exact Hrun|]. split; [exact Hclasses|]. split; [exact Hlen|].
    split; [now rewrite Hother|].
    now rewrite Hself, lookup_insert_eq.
Defined.

(** Assigning [classes] and [c] twice is assigning them once. *)
Lemma assign_twice (a : gmap string value) (v : value) (n : Z) :
  <["c" := VInt n]> (<["classes" := v]> (<["c" := VInt n]> (<["classes" := v]> a))) =
  <["c" := VInt n]> (<["classes" := v]> a).
Proof.
  apply map_eq. intros name.
  destruct (decide (name = "c")) as [->|Hc]; [now rewrite !lookup_insert_eq|].
  rewrite !(lookup_insert_ne _ "c") by congruence.
  destruct (decide (name = "classes")) as [->|Hcl]; [now rewrite !lookup_insert_eq|].
  now rewrite !lookup_insert_ne by congruence.
Qed.

(** The assignment hides whatever [classes] and [c] held before. *)
Lemma assign_overwrites (a a' : gmap string value) (v : value) (n : Z) :
  (forall name : string, name <> "classes" -> name <> "c" -> a' !! name = a !! name) ->
  <["c" := VInt n]> (<["classes" := v]> a') = <["c" := VInt n]> (<["classes" := v]> a).
Proof.
  intros Hagree. apply map_eq. intros name.
  destruct (decide (name = "c")) as [->|Hc]; [now rewrite !lookup_insert_eq|].
  rewrite !(lookup_insert_ne _ "c") by congruence.
  destruct (decide (name = "classes")) as [->|Hcl]; [now rewrite !lookup_insert_eq|].
  rewrite !(lookup_insert_ne _ "classes") by congruence.
  now apply Hagree.
Qed.

(** What a [process] call returns when it does not raise: the
    processor holds sized classes and [ds] is an instance. *)
Lemma process_returns_inv (h h' : heap) (p ds : loc) :
  process p ds h = (inr tt, h') ->
  exists (pc c : string) (pa a : gmap string value) (v : value) (n : Z),
    h !! p = Some (OInst pc pa) /\ pa !! "classes" = Some v /\
    len_of h v = Some n /\ h !! ds = Some (OInst c a).
Proof.
  unfold process. run_bind. unfold getattr at 1.
  destruct (h !! p) as [[|pc pa]|] eqn:Hp; try discriminate.
  unfold lift_opt. destruct (pa !! "classes") as [v|] eqn:Hv; [|discriminate].
  unfold mret, py_ret. cbv beta iota.
  rewrite (getattr_inst _ _ _ _ _ _ Hp Hv). cbv beta iota.
  unfold len, lift_opt. destruct (len_of h v) as [n|] eqn:Hn; [|discriminate].
  unfold mret, py_ret. cbv beta iota.
  unfold setattr at 1.
  destruct (h !! ds) as [[|c a]|] eqn:Hds; try discriminate.
  intros _. now exists pc, c, pa, a, v, n.
Qed.

(** C10: [process] is idempotent and overwriting.  Calling [p.process(ds)]
    twice ends as calling it once, with the same outcome and the same store;
    and when [p] holds sized classes, the store after the call is the same
    whatever [ds.classes] and [ds.c] held before it: afterwards [ds.classes]
    is the processor's classes and [ds.c] their length. *)
Theorem process_idempotent_overwriting (h : heap) (p ds : loc) :
  (process p ds ≫= fun _ => process p ds) h = process p ds h /\
  forall (pc c : string) (pa a a' : gmap string value) (v : value) (n : Z),
    ds <> p ->
    h !! p = Some (OInst pc pa) -> pa !! "classes" = Some v ->
    len_of h v = Some n -> h !! ds = Some (OInst c a) ->
    (forall name : string, name <> "classes" -> name <> "c" -> a' !! name = a !! name) ->
    process p ds (<[ds := OInst c a']> h) = process p ds h /\
    exists h' : heap,
      process p ds h = (inr tt, h') /\
      attr h' ds "classes" = Some v /\ attr h' ds "c" = Some (VInt n).
Proof.
  split.
  - unfold mbind, py_bind.
    destruct (process p ds h) as [[e|[]] h'] eqn:Hrun; [reflexivity|].
    destruct (process_returns_inv _ _ _ _ Hrun) as (pc & c & pa & a & v & n & Hp & Hv & Hn & Hds).
    rewrite (process_assigns _ _ _ _ _ _ _ _ _ Hp Hv Hn Hds) in Hrun.
    injection Hrun as <-.
    destruct (decide (ds = p)) as [->|Hne].
    + assert (c = pc /\ a = pa) as [-> ->] by (split; congruence).
      erewrite process_assigns;
        [|apply lookup_insert_eq
         |rewrite lookup_insert_ne by discriminate; apply lookup_insert_eq
         |erewrite len_of_insert_inst; eauto
         |apply lookup_insert_eq].
      now rewrite insert_insert_eq, assign_twice.
    + erewrite process_assigns;
        [|rewrite lookup_insert_ne by exact Hne; exact Hp
         |exact Hv
         |erewrite len_of_insert_inst; eauto
         |apply lookup_insert_eq].
      now rewrite insert_insert_eq, assign_twice.
  - intros pc c pa a a' v n Hne Hp Hv Hn Hds Hagree.
    rewrite (process_assigns _ _ _ _ _ _ _ _ _ Hp Hv Hn Hds).
    split.
    + erewrite process_assigns;
        [|rewrite lookup_insert_ne by exact Hne; exact Hp
         |exact Hv
         |erewrite len_of_insert_inst; eauto
         |apply lookup_insert_eq].
      now rewrite insert_insert_eq, (assign_overwrites a a').
    + eexists. split; [reflexivity|].
      rewrite !attr_insert_eq. split.
      * rewrite lookup_insert_ne by discriminate. apply lookup_insert_eq.
      * apply lookup_insert_eq.
Qed.

Lemma process_idempotent_overwriting_witness :
  (process 4%positive 3%positive ≫= fun _ => process 4%positive 3%positive)
    demo_heap_processed
  = process 4%positive 3%positive demo_heap_processed /\
  process 4%positive 3%positive
    (<[3%positive := OInst "SegmentationLabelList" demo_stale_attrs]> demo_heap_processed)
  = process 4%positive 3%positive demo_heap_processed /\
  exists h' : heap,
    process 4%positive 3%positive demo_heap_processed = (inr tt, h') /\
    attr h' 3%positive "classes" = Some (VRef 2%positive) /\
    attr h' 3%positive "c" = Some (VInt 3).
Proof.
  destruct (process_idempotent_overwriting demo_heap_processed 4%positive 3%positive)
    as [Hidem Hover].
  split; [exact Hidem|].
  apply (Hover "SegmentationProcessor" "SegmentationLabelList"
           {[ "classes" := VRef 2%positive ]}
           {[ "classes" := VNone; "c" := VInt 7; "path" := VStr "test" ]}
           demo_stale_attrs (VRef 2%positive) 3).
  - discriminate.
  - reflexivity.
  - reflexivity.
  - reflexivity.
  - reflexivity.
  - intros name Hclasses Hc. unfold demo_stale_attrs.
    rewrite !(lookup_insert_ne _ "classes"), !(lookup_insert_ne _ "c") by congruence.
    reflexivity.
Defined.

(** The unlabelled list of [demo_heap] comes out the same whether its stale
    [c] was 7 or anything else. *)
Example process_demo :
  attr (snd ((p ← create 1%positive; process p 3%positive) demo_heap)) 3%positive "c"
  = Some (VInt 3).
Proof. vm_compute. reflexivity. Qed.

End SegmentationProcessorFacts.

(** ** [MyCustomItemList.new] *)

Module MyCustomItemListFacts.

Import Heap HeapFacts MyCustomItemList.

Section WithItemList.

Variable ItemList_init : loc -> list value -> gmap string value -> py heap unit.
Variable ItemList_new : loc -> list value -> gmap string value -> py heap value.

(** [new] as one case analysis: the attribute, then the call of the base
    class, whose value is dropped. *)
Lemma new_unfold (self : loc) (items : value) (kwargs : gmap string value) (h : heap) :
  new ItemList_new self items kwargs h =
  match attr h self "my_arg" with
  | None => (inl AttributeError, h)
  | Some my_arg =>
      match ItemList_new self [items; my_arg] kwargs h with
      | (inl e, h') => (inl e, h')
      | (inr _, h') => (inr VNone, h')
      end
  end.
Proof.
  unfold new, getattr, attr, lift_opt, raise, mbind, py_bind, mret, py_ret.
  destruct (h !! self) as [[|c a]|]; try reflexivity.
  destruct (a !! "my_arg") as [my_arg|]; [|reflexivity].
  cbv beta iota.
  destruct (ItemList_new self [items; my_arg] kwargs h) as [[e|r] h']; reflexivity.
Qed.

(** C8: for every instance [l] of [MyCustomItemList] (it has its [my_arg])
    and every [items], [l.new(items)] calls
    [super().new(items, self.my_arg, **kwargs)] and, when that call returns a
    value [r], returns [None], not [r], with the store the call left: the
    caller receives [None] whatever the base class built. *)
Theorem new_returns_None (h h' : heap) (self : loc) (items my_arg r : value)
  (kwargs : gmap string value) :
  attr h self "my_arg" = Some my_arg ->
  ItemList_new self [items; my_arg] kwargs h = (inr r, h') ->
  new ItemList_new self items kwargs h = (inr VNone, h').
Proof.
  intros Harg Hsuper. now rewrite new_unfold, Harg, Hsuper.
Qed.

(** Whatever happens, [new] never hands a value other than [None] back. *)
Lemma new_result_is_None (h h' : heap) (self : loc) (items v : value)
  (kwargs : gmap string value) :
  new ItemList_new self items kwargs h = (inr v, h') -> v = VNone.
Proof.
  rewrite new_unfold. destruct (attr h self "my_arg") as [my_arg|]; [|discriminate].
  destruct (ItemList_new self [items; my_arg] kwargs h) as [[e|r] h1];
    [discriminate|now intros [= <- _]].
Qed.

End WithItemList.

Lemma new_returns_None_witness :
  attr demo_custom 1%positive "my_arg" = Some (VInt 42) /\
  demo_ItemList_new 1%positive [VRef 2%positive; VInt 42] ∅ demo_custom
  = (inr (VRef 3%positive),
     <[3%positive := OInst "ItemList"
                       {[ "items" := VRef 2%positive; "processor" := VInt 42 ]}]>
       demo_custom) /\
  new demo_ItemList_new 1%positive (VRef 2%positive) ∅ demo_custom
  = (inr VNone,
     <[3%positive := OInst "ItemList"
                       {[ "items" := VRef 2%positive; "processor" := VInt 42 ]}]>
       demo_custom).
Proof.
  assert (Harg : attr demo_custom 1%positive "my_arg" = Some (VInt 42)) by reflexivity.
  assert (Hsuper :
    demo_ItemList_new 1%positive [VRef 2%positive; VInt 42] ∅ demo_custom
    = (inr (VRef 3%positive),
       <[3%positive := OInst "ItemList"
                         {[ "items" := VRef 2%positive; "processor" := VInt 42 ]}]>
         demo_custom))
    by (vm_compute; reflexivity).
  split; [exact Harg|]. split; [exact Hsuper|].
  exact (new_returns_None demo_ItemList_new _ _ _ _ _ _ _ Harg Hsuper).
Defined.

End MyCustomItemListFacts.

(** ** Running a Python computation *)

Lemma run_bind_inr {S A B} (m : py S A) (k : A -> py S B) (s s' : S) (a : A) :
  m s = (inr a, s') -> (m ≫= k) s = k a s'.
Proof. intros H. unfold mbind, py_bind. now rewrite H. Qed.

Lemma run_bind_inl {S A B} (m : py S A) (k : A -> py S B) (s s' : S) (e : exn) :
  m s = (inl e, s') -> (m ≫= k) s = (inl e, s').
Proof. intros H. unfold mbind, py_bind. now rewrite H. Qed.

(** ** [Image.show_xys] and [Image.show_xyzs] *)

Module ImageFacts.

Import Image.

Section WithItems.

Variable X Y K : Type.

Implicit Types tr ta tb : trace X Y K.

Lemma accesses_app ta tb :
  accesses (ta ++ tb) = accesses ta ++ accesses tb.
Proof. apply omap_app. Qed.

Lemma shows_app ta tb :
  shows (ta ++ tb) = shows ta ++ shows tb.
Proof. apply omap_app. Qed.

(** *** The grid of Axes *)

Lemma length_grid_row (ncols r : Z) : length (grid_row ncols r) = Z.to_nat ncols.
Proof. unfold grid_row. now rewrite length_fmap, length_seqZ. Qed.

Lemma length_grid (nrows ncols : Z) : length (grid nrows ncols) = Z.to_nat nrows.
Proof. unfold grid. now rewrite length_fmap, length_seqZ. Qed.

Lemma length_concat_rows (ncols : Z) (rs : list Z) :
  length (concat (grid_row ncols <$> rs)) = (length rs * Z.to_nat ncols)%nat.
Proof.
  induction rs as [|r rs IH]; [reflexivity|].
  rewrite fmap_cons. cbn [concat]. rewrite length_app, length_grid_row, IH. reflexivity.
Qed.

Lemma length_concat_grid (nrows ncols : Z) :
  length (concat (grid nrows ncols)) = (Z.to_nat nrows * Z.to_nat ncols)%nat.
Proof. unfold grid. now rewrite length_concat_rows, length_seqZ. Qed.

Lemma lookup_grid (nrows ncols i j : Z) :
  0 <= i < nrows -> 0 <= j < ncols ->
  exists row, py_index (grid nrows ncols) i = Some row /\ py_index row j = Some (i, j).
Proof.
  intros Hi Hj. exists (grid_row ncols i). split.
  - rewrite py_index_in_range by (rewrite length_grid; lia).
    unfold grid. rewrite list_lookup_fmap, lookup_seqZ_lt by lia.
    simpl. f_equal. f_equal. lia.
  - rewrite py_index_in_range by (rewrite length_grid_row; lia).
    unfold grid_row. rewrite list_lookup_fmap, lookup_seqZ_lt by lia.
    simpl. f_equal. f_equal. lia.
Qed.

(** *** [plt.subplots] *)

Lemma subplots_single (figsize : Z * Z) tr :
  subplots 1 1 figsize tr = (inr (Ax 0 0), tr ++ [Subplots 1 1 figsize]).
Proof. reflexivity. Qed.

Lemma subplots_grid (nrows ncols : Z) (figsize : Z * Z) tr :
  1 < nrows -> 1 < ncols ->
  subplots nrows ncols figsize tr =
    (inr (Arr2 (grid nrows ncols)), tr ++ [Subplots nrows ncols figsize]).
Proof.
  intros Hr Hc. unfold subplots.
  erewrite run_bind_inr by reflexivity.
  destruct (Z.ltb_spec nrows 1); [lia|]. destruct (Z.ltb_spec ncols 1); [lia|].
  destruct (Z.eqb_spec nrows 1); [lia|]. destruct (Z.eqb_spec ncols 1); [lia|].
  reflexivity.
Qed.

Lemma subplots_row (ncols : Z) (figsize : Z * Z) tr :
  1 < ncols ->
  subplots 1 ncols figsize tr =
    (inr (Arr1 (concat (grid 1 ncols))), tr ++ [Subplots 1 ncols figsize]).
Proof.
  intros Hc. unfold subplots.
  erewrite run_bind_inr by reflexivity.
  destruct (Z.ltb_spec ncols 1); [lia|]. destruct (Z.eqb_spec ncols 1); [lia|].
  reflexivity.
Qed.

Lemma getitem2_grid (nrows ncols i j : Z) tr :
  0 <= i < nrows -> 0 <= j < ncols ->
  getitem2 (Arr2 (grid nrows ncols)) i j tr = (inr (Ax i j), tr).
Proof.
  intros Hi Hj. destruct (lookup_grid nrows ncols i j Hi Hj) as (row & Hrow & Hrc).
  unfold getitem2. rewrite Hrow. simpl.
  erewrite run_bind_inr by reflexivity. rewrite Hrc. reflexivity.
Qed.

(** *** The loop of [show_xys] *)

Section ShowXys.

Variable xs : list X.
Variable ys : list Y.
Variable kwargs : K.

(** The body of the loop: [xs[i].show(ax=ax, y=ys[i], **kwargs)]. *)
Local Abbreviation body :=
  (fun (i : Z) (ax : axes) =>
     x ← getitem Xs xs i; y ← getitem Ys ys i; show (K := K) x ax y kwargs).

Lemma body_in_bounds (i : Z) (ax : axes) (x : X) (y : Y) tr :
  py_index xs i = Some x -> py_index ys i = Some y ->
  body i ax tr = (inr tt, tr ++ [GetItem Xs i; GetItem Ys i; Show x ax y kwargs]).
Proof.
  intros Hx Hy. unfold getitem, show, emit, mbind, py_bind.
  rewrite Hx, Hy. simpl. now rewrite <- !app_assoc.
Qed.

(** Iterating over [axl] from position [k] subscripts both sequences at
    [k], [k+1], ... and nowhere else, and never out of range as long as
    the last position is inside both. *)
Lemma loop_in_bounds (axl : list axes) (k : Z) :
  0 <= k -> k + Z.of_nat (length axl) <= Z.of_nat (length xs) ->
  length xs = length ys ->
  exists evs : trace X Y K,
    (forall tr, for_enumerate k axl body tr = (inr tt, tr ++ evs)) /\
    accesses evs =
      flat_map (fun i => [(Xs, i); (Ys, i)]) (seqZ k (Z.of_nat (length axl))) /\
    shows evs =
      zip (zip (take (length axl) (drop (Z.to_nat k) xs)) axl)
          (take (length axl) (drop (Z.to_nat k) ys)).
Proof.
  revert k. induction axl as [|ax axl IH]; intros k Hk Hlen Heq.
  - exists []. split; [intros tr; now rewrite app_nil_r|]. split; reflexivity.
  - cbn [length] in Hlen.
    destruct (lookup_lt_is_Some_2 xs (Z.to_nat k)) as [x Hx]; [lia|].
    destruct (lookup_lt_is_Some_2 ys (Z.to_nat k)) as [y Hy]; [lia|].
    destruct (IH (k + 1)) as (evs & Hrun & Hacc & Hshow); [lia|lia|exact Heq|].
    exists ([GetItem Xs k; GetItem Ys k; Show x ax y kwargs] ++ evs).
    split; [|split].
    + intros tr. cbn [for_enumerate].
      erewrite run_bind_inr;
        [|apply body_in_bounds; rewrite py_index_in_range by lia; eassumption].
      rewrite Hrun. now rewrite <- app_assoc.
    + rewrite accesses_app, Hacc.
      rewrite (seqZ_cons k) by (cbn [length]; lia).
      replace (Z.pred (Z.of_nat (length (ax :: axl)))) with (Z.of_nat (length axl))
        by (cbn [length]; lia).
      reflexivity.
    + rewrite shows_app, Hshow.
      replace (Z.to_nat (k + 1)) with (S (Z.to_nat k)) by lia.
      rewrite (drop_S xs x (Z.to_nat k) Hx), (drop_S ys y (Z.to_nat k) Hy).
      reflexivity.
Qed.

(** The two ways the list of Axes is obtained. *)
Lemma show_xys_single (figsize : Z * Z) tr :
  int_sqrt (Z.of_nat (length xs)) = 1 ->
  show_xys xs ys figsize kwargs tr =
  (for_enumerate 0 [Ax 0 0] body ≫= fun _ => emit TightLayout)
    (tr ++ [Subplots 1 1 figsize]).
Proof.
  intros Hrows. unfold show_xys. rewrite Hrows.
  erewrite run_bind_inr by apply subplots_single.
  erewrite run_bind_inr by reflexivity. reflexivity.
Qed.

Lemma show_xys_grid (figsize : Z * Z) tr :
  1 < int_sqrt (Z.of_nat (length xs)) ->
  show_xys xs ys figsize kwargs tr =
  (for_enumerate 0
     (ax_at <$> concat (grid (int_sqrt (Z.of_nat (length xs)))
                             (int_sqrt (Z.of_nat (length xs)))))
     body ≫= fun _ => emit TightLayout)
    (tr ++ [Subplots (int_sqrt (Z.of_nat (length xs)))
                     (int_sqrt (Z.of_nat (length xs))) figsize]).
Proof.
  intros Hrows. unfold show_xys. cbv zeta.
  erewrite run_bind_inr by (apply subplots_grid; exact Hrows).
  destruct (Z.ltb_spec 1 (int_sqrt (Z.of_nat (length xs)))); [|lia].
  erewrite run_bind_inr by reflexivity. reflexivity.
Qed.

End ShowXys.

Lemma int_sqrt_bounds (n : Z) :
  1 <= n -> 1 <= int_sqrt n /\ int_sqrt n * int_sqrt n <= n.
Proof.
  intros Hn. unfold int_sqrt.
  pose proof (Z.sqrt_spec n ltac:(lia)) as [Hlo Hhi].
  pose proof (Z.sqrt_nonneg n). split; [nia|exact Hlo].
Qed.

(** C5: for equal-length non-empty [xs] and [ys], with
    [rows = floor(sqrt(len(xs)))], [show_xys] runs to its end without raising
    and subscripts [xs] and [ys] exactly at the positions
    [0, ..., rows*rows - 1], each in bounds since [rows*rows <= len(xs)]; when
    [rows <= 1] the one position subscripted is 0.  The item and target at
    each of these positions are shown together on the Axes of that rank. *)
Theorem show_xys_in_bounds (xs : list X) (ys : list Y) (figsize : Z * Z) (kwargs : K) :
  xs <> [] -> length xs = length ys ->
  let rows := int_sqrt (Z.of_nat (length xs)) in
  1 <= rows /\ rows * rows <= Z.of_nat (length xs) /\
  exists evs : trace X Y K,
    (forall tr, show_xys xs ys figsize kwargs tr = (inr tt, tr ++ evs)) /\
    accesses evs = flat_map (fun i => [(Xs, i); (Ys, i)]) (seqZ 0 (rows * rows)) /\
    (forall (s : seq_name) (i : Z),
       In (s, i) (accesses evs) -> 0 <= i < rows * rows /\ i < Z.of_nat (length xs)) /\
    (rows <= 1 -> accesses evs = [(Xs, 0); (Ys, 0)]) /\
    shows evs =
      zip (zip (take (Z.to_nat (rows * rows)) xs) (ax_at <$> concat (grid rows rows)))
          (take (Z.to_nat (rows * rows)) ys).
Proof.
  intros Hne Heq rows.
  assert (Hn : 1 <= Z.of_nat (length xs)) by (destruct xs; [congruence|cbn [length]; lia]).
  destruct (int_sqrt_bounds _ Hn) as [Hrows Hsq]. fold rows in Hrows, Hsq.
  split; [exact Hrows|]. split; [exact Hsq|].
  set (axl := ax_at <$> concat (grid rows rows)).
  assert (Hlen : Z.of_nat (length axl) = rows * rows).
  { unfold axl. rewrite length_fmap, length_concat_grid. lia. }
  assert (Hstart : forall tr,
    show_xys xs ys figsize kwargs tr =
    (for_enumerate 0 axl
       (fun i ax => x ← getitem Xs xs i; y ← getitem Ys ys i; show x ax y kwargs)
       ≫= fun _ => emit TightLayout) (tr ++ [Subplots rows rows figsize])).
  { intros tr. destruct (Z.eq_dec rows 1) as [H1|H1].
    - rewrite show_xys_single by exact H1. unfold axl. rewrite H1. reflexivity.
    - apply show_xys_grid. fold rows. lia. }
  destruct (loop_in_bounds xs ys kwargs axl 0) as (evs & Hrun & Hacc & Hshow);
    [lia|lia|exact Heq|].
  rewrite Hlen in Hacc. rewrite drop_0 in Hshow.
  replace (length axl) with (Z.to_nat (rows * rows)) in Hshow by lia.
  exists ([Subplots rows rows figsize] ++ evs ++ [TightLayout]).
  assert (Hall : accesses ([Subplots rows rows figsize] ++ evs ++ [TightLayout] : trace X Y K)
                 = accesses evs).
  { rewrite !accesses_app. cbn. now rewrite app_nil_r. }
  split; [|split; [|split; [|split]]].
  - intros tr. rewrite Hstart.
    erewrite run_bind_inr by apply Hrun.
    unfold emit. now rewrite <- !app_assoc.
  - now rewrite Hall.
  - intros s i Hin. rewrite Hall, Hacc in Hin.
    apply in_flat_map in Hin as (j & Hj & Hsi).
    apply list_elem_of_In, elem_of_seqZ in Hj.
    assert (i = j) as -> by (destruct Hsi as [[= _ <-]|[[= _ <-]|[]]]; reflexivity).
    lia.
  - intros Hle. rewrite Hall, Hacc.
    replace rows with 1 by lia. reflexivity.
  - rewrite !shows_app. cbn. now rewrite app_nil_r.
Qed.

(** *** [show_xyzs] *)

Lemma length_zip3 (xs : list X) (ys zs : list Y) :
  length xs = length ys -> length xs = length zs ->
  length (zip3 xs ys zs) = length xs.
Proof.
  revert ys zs. induction xs as [|x xs IH]; intros [|y ys] [|z zs]; simpl;
    try discriminate; try reflexivity.
  intros [= Hy] [= Hz]. now rewrite IH.
Qed.

Lemma lookup_zip3 (xs : list X) (ys zs : list Y) (i : nat) (x : X) (y z : Y) :
  zip3 xs ys zs !! i = Some (x, y, z) ->
  xs !! i = Some x /\ ys !! i = Some y /\ zs !! i = Some z.
Proof.
  revert ys zs i. induction xs as [|x' xs IH]; intros [|y' ys] [|z' zs] [|i]; simpl;
    try discriminate.
  - now intros [= -> -> ->].
  - apply IH.
Qed.

(** The two [show] calls of iteration [i]. *)
Local Abbreviation shown_at :=
  (fun (it : Z * (X * Y * Y)) =>
     [(it.2.1.1, Ax it.1 0, it.2.1.2); (it.2.1.1, Ax it.1 1, it.2.2)]).

(** The loop over the zipped triples, on a grid with a row for each of
    them: every iteration shows the input twice, on the two Axes of its row. *)
Lemma loop_xyzs (nrows : Z) (kwargs : K) (l : list (X * Y * Y)) (k : Z) :
  0 <= k -> k + Z.of_nat (length l) <= nrows ->
  exists evs : trace X Y K,
    (forall tr,
       for_enumerate k l (fun i '(x, y, z) =>
         a0 ← getitem2 (Arr2 (grid nrows 2)) i 0;
         _ ← show x a0 y kwargs;
         a1 ← getitem2 (Arr2 (grid nrows 2)) i 1;
         show x a1 z kwargs) tr = (inr tt, tr ++ evs)) /\
    shows evs = flat_map shown_at (zip (seqZ k (Z.of_nat (length l))) l) /\
    length (shows evs) = (2 * length l)%nat.
Proof.
  revert k. induction l as [|[[x y] z] l IH]; intros k Hk Hlen.
  - exists []. split; [intros tr; now rewrite app_nil_r|]. split; reflexivity.
  - cbn [length] in Hlen.
    destruct (IH (k + 1)) as (evs & Hrun & Hshow & Hcount); [lia|lia|].
    exists ([Show x (Ax k 0) y kwargs; Show x (Ax k 1) z kwargs] ++ evs).
    split; [|split].
    + intros tr. cbn [for_enumerate].
      erewrite run_bind_inr.
      2:{ erewrite run_bind_inr by (apply getitem2_grid; lia).
          erewrite run_bind_inr by reflexivity.
          erewrite run_bind_inr by (apply getitem2_grid; lia).
          reflexivity. }
      rewrite Hrun. unfold emit. now rewrite <- !app_assoc.
    + rewrite shows_app, Hshow.
      rewrite (seqZ_cons k) by (cbn [length]; lia).
      replace (Z.pred (Z.of_nat (length ((x, y, z) :: l)))) with (Z.of_nat (length l))
        by (cbn [length]; lia).
      reflexivity.
    + rewrite shows_app, length_app, Hcount. cbn [length]. cbn. lia.
Qed.

(** With two rows or more the figure is a grid, and the loop runs once for
    each of the [len(xs)] triples: iteration [i] shows [xs[i]] with [ys[i]]
    in the first column and [xs[i]] with [zs[i]] in the second. *)
Lemma show_xyzs_rows (xs : list X) (ys zs : list Y) (figsize : option (Z * Z))
  (kwargs : K) :
  length xs = length ys -> length xs = length zs -> (2 <= length xs)%nat ->
  length (zip3 xs ys zs) = length xs /\
  exists evs : trace X Y K,
    (forall tr, show_xyzs xs ys zs figsize kwargs tr = (inr tt, tr ++ evs)) /\
    shows evs =
      flat_map shown_at (zip (seqZ 0 (Z.of_nat (length xs))) (zip3 xs ys zs)) /\
    length (shows evs) = (2 * length xs)%nat.
Proof.
  intros Hy Hz Hn. pose proof (length_zip3 xs ys zs Hy Hz) as Hzip.
  split; [exact Hzip|].
  destruct (loop_xyzs (Z.of_nat (length xs)) kwargs (zip3 xs ys zs) 0)
    as (evs & Hrun & Hshow & Hcount); [lia|lia|].
  rewrite Hzip in Hshow, Hcount.
  exists ([Subplots (Z.of_nat (length xs)) 2
             (ifnone figsize (6, 3 * Z.of_nat (length xs)));
           Suptitle "Ground truth / Predictions"] ++ evs).
  split; [|split].
  - intros tr. unfold show_xyzs. cbv zeta.
    erewrite run_bind_inr by (apply subplots_grid; lia).
    erewrite run_bind_inr by reflexivity.
    rewrite Hrun. now rewrite <- !app_assoc.
  - rewrite shows_app. exact Hshow.
  - rewrite shows_app. exact Hcount.
Qed.

(** C6 at its failing input: with one input, one target and one prediction
    the figure has a single row, [plt.subplots(1, 2)] hands back a 1-D array
    of two Axes, and the first [axs[i,0]] raises [IndexError]: nothing is
    shown, although [zip(xs, ys, zs)] has one triple. *)
Theorem show_xyzs_single_row_raises (x : X) (y z : Y) (figsize : option (Z * Z))
  (kwargs : K) tr :
  length (zip3 [x] [y] [z]) = 1%nat /\
  show_xyzs [x] [y] [z] figsize kwargs tr =
    (inl IndexError,
     tr ++ [Subplots 1 2 (ifnone figsize (6, 3)); Suptitle "Ground truth / Predictions"]) /\
  shows (snd (show_xyzs [x] [y] [z] figsize kwargs tr)) = shows tr.
Proof.
  assert (Hrun : show_xyzs [x] [y] [z] figsize kwargs tr =
    (inl IndexError,
     tr ++ [Subplots 1 2 (ifnone figsize (6, 3)); Suptitle "Ground truth / Predictions"])).
  { unfold show_xyzs. cbv zeta.
    erewrite run_bind_inr by (apply subplots_row; lia).
    erewrite run_bind_inr by reflexivity.
    cbn. now rewrite <- app_assoc. }
  split; [reflexivity|]. split; [exact Hrun|].
  rewrite Hrun. cbn [snd]. rewrite shows_app. cbn. now rewrite app_nil_r.
Qed.

End WithItems.

Lemma show_xys_in_bounds_witness :
  demo_xs <> [] /\ length demo_xs = length demo_ys /\
  exists evs : trace nat nat unit,
    show_xys demo_xs demo_ys default_figsize tt [] = (inr tt, evs) /\
    accesses evs =
      [(Xs, 0); (Ys, 0); (Xs, 1); (Ys, 1); (Xs, 2); (Ys, 2); (Xs, 3); (Ys, 3)] /\
    shows evs =
      [(10, Ax 0 0, 20); (11, Ax 0 1, 21); (12, Ax 1 0, 22); (13, Ax 1 1, 23)]%nat.
Proof.
  assert (Hne : demo_xs <> []) by discriminate.
  assert (Hlen : length demo_xs = length demo_ys) by reflexivity.
  split; [exact Hne|]. split; [exact Hlen|].
  destruct (show_xys_in_bounds nat nat unit demo_xs demo_ys default_figsize tt Hne Hlen)
    as (_ & _ & evs & Hrun & Hacc & _ & _ & Hshow).
  exists evs. split; [apply (Hrun [])|]. split.
  - rewrite Hacc. reflexivity.
  - rewrite Hshow. reflexivity.
Defined.

Lemma show_xyzs_rows_witness :
  length demo_xs = length demo_ys /\ length demo_xs = length demo_zs /\
  (2 <= length demo_xs)%nat /\
  exists evs : trace nat nat unit,
    show_xyzs demo_xs demo_ys demo_zs None tt [] = (inr tt, evs) /\
    length (shows evs) = 10%nat.
Proof.
  assert (Hy : length demo_xs = length demo_ys) by reflexivity.
  assert (Hz : length demo_xs = length demo_zs) by reflexivity.
  assert (Hn : (2 <= length demo_xs)%nat) by (simpl; lia).
  split; [exact Hy|]. split; [exact Hz|]. split; [exact Hn|].
  destruct (show_xyzs_rows nat nat unit demo_xs demo_ys demo_zs None tt Hy Hz Hn)
    as (_ & evs & Hrun & _ & Hcount).
  exists evs. split; [apply (Hrun [])|exact Hcount].
Defined.

(** No input at all: [plt.subplots(0, 2)] refuses the empty grid. *)
Example show_xyzs_empty :
  show_xyzs ([] : list nat) ([] : list nat) [] None tt [] =
    (inl ValueError, [Subplots 0 2 (6, 0)]).
Proof. reflexivity. Qed.

(** *** Lists of different lengths *)

Section MoreOnShow.

Variable X Y K : Type.

Implicit Types tr : trace X Y K.

Local Abbreviation xys_body xs ys kwargs :=
  (fun (i : Z) (ax : axes) =>
     x ← getitem Xs xs i; y ← getitem Ys ys i; show (X := X) (Y := Y) (K := K) x ax y kwargs).

Lemma for_enumerate_app {S A} (body : Z -> A -> py S unit) (l1 l2 : list A) (k : Z) (s : S) :
  for_enumerate k (l1 ++ l2) body s =
  (for_enumerate k l1 body ≫= fun _ => for_enumerate (k + Z.of_nat (length l1)) l2 body) s.
Proof.
  revert k s. induction l1 as [|a l1 IH]; intros k s.
  - cbn [app length for_enumerate]. rewrite Z.add_0_r. reflexivity.
  - cbn [app for_enumerate]. unfold mbind, py_bind in *.
    destruct (body k a s) as [[e|[]] s']; [reflexivity|].
    rewrite IH. replace (k + 1 + Z.of_nat (length l1)) with (k + Z.of_nat (length (a :: l1)))
      by (cbn [length]; lia).
    reflexivity.
Qed.

(** The loop of [show_xys] from position [k], each list long enough on
    its own. *)
Lemma loop_in_both (xs : list X) (ys : list Y) (kwargs : K) (axl : list axes) (k : Z) :
  0 <= k ->
  k + Z.of_nat (length axl) <= Z.of_nat (length xs) ->
  k + Z.of_nat (length axl) <= Z.of_nat (length ys) ->
  exists evs : trace X Y K,
    (forall tr, for_enumerate k axl (xys_body xs ys kwargs) tr = (inr tt, tr ++ evs)) /\
    accesses evs =
      flat_map (fun i => [(Xs, i); (Ys, i)]) (seqZ k (Z.of_nat (length axl))) /\
    shows evs =
      zip (zip (take (length axl) (drop (Z.to_nat k) xs)) axl)
          (take (length axl) (drop (Z.to_nat k) ys)) /\
    ~ In TightLayout evs.
Proof.
  revert k. induction axl as [|ax axl IH]; intros k Hk Hx Hy.
  - exists []. split; [intros tr; now rewrite app_nil_r|].
    split; [reflexivity|]. split; [reflexivity|intros []].
  - cbn [length] in Hx, Hy.
    destruct (lookup_lt_is_Some_2 xs (Z.to_nat k)) as [x Hxk]; [lia|].
    destruct (lookup_lt_is_Some_2 ys (Z.to_nat k)) as [y Hyk]; [lia|].
    destruct (IH (k + 1)) as (evs & Hrun & Hacc & Hshow & Hfree); [lia|lia|lia|].
    exists ([GetItem Xs k; GetItem Ys k; Show x ax y kwargs] ++ evs).
    split; [|split; [|split]]; cycle 3.
    { intros [H|[H|[H|H]]]; try discriminate. exact (Hfree H). }
    + intros tr. cbn [for_enumerate].
      erewrite run_bind_inr;
        [|apply body_in_bounds; rewrite py_index_in_range by lia; eassumption].
      rewrite Hrun. now rewrite <- app_assoc.
    + rewrite accesses_app, Hacc.
      rewrite (seqZ_cons k) by (cbn [length]; lia).
      replace (Z.pred (Z.of_nat (length (ax :: axl)))) with (Z.of_nat (length axl))
        by (cbn [length]; lia).
      reflexivity.
    + rewrite shows_app, Hshow.
      replace (Z.to_nat (k + 1)) with (S (Z.to_nat k)) by lia.
      rewrite (drop_S xs x (Z.to_nat k) Hxk), (drop_S ys y (Z.to_nat k) Hyk).
      reflexivity.
Qed.

(** How [show_xys] starts on a non-empty [xs]: the figure, then the loop
    over the [rows*rows] Axes of the grid. *)
Lemma show_xys_start (xs : list X) (ys : list Y) (figsize : Z * Z) (kwargs : K) :
  xs <> [] ->
  let rows := int_sqrt (Z.of_nat (length xs)) in
  let axl := ax_at <$> concat (grid rows rows) in
  1 <= rows /\ rows * rows <= Z.of_nat (length xs) /\
  Z.of_nat (length axl) = rows * rows /\
  forall tr,
    show_xys xs ys figsize kwargs tr =
    (for_enumerate 0 axl (xys_body xs ys kwargs) ≫= fun _ => emit TightLayout)
      (tr ++ [Subplots rows rows figsize]).
Proof.
  intros Hne rows axl.
  assert (Hn : 1 <= Z.of_nat (length xs)) by (destruct xs; [congruence|cbn [length]; lia]).
  destruct (int_sqrt_bounds _ Hn) as [Hrows Hsq]. fold rows in Hrows, Hsq.
  split; [exact Hrows|]. split; [exact Hsq|]. split.
  - unfold axl. rewrite length_fmap, length_concat_grid. lia.
  - intros tr. destruct (Z.eq_dec rows 1) as [H1|H1].
    + rewrite show_xys_single by exact H1. unfold axl. rewrite H1. reflexivity.
    + apply show_xys_grid. fold rows. lia.
Qed.

(** [show_xys] does not need lists of equal length: with a non-empty [xs]
    it runs to its end as soon as [ys] has [rows*rows] elements, and shows
    the first [rows*rows] items of [xs] with the first [rows*rows] of [ys];
    what either list holds beyond them is never looked at. *)
Theorem show_xys_first_square (xs : list X) (ys : list Y) (figsize : Z * Z) (kwargs : K) :
  xs <> [] ->
  let rows := int_sqrt (Z.of_nat (length xs)) in
  rows * rows <= Z.of_nat (length ys) ->
  exists evs : trace X Y K,
    (forall tr, show_xys xs ys figsize kwargs tr = (inr tt, tr ++ evs)) /\
    accesses evs = flat_map (fun i => [(Xs, i); (Ys, i)]) (seqZ 0 (rows * rows)) /\
    shows evs =
      zip (zip (take (Z.to_nat (rows * rows)) xs) (ax_at <$> concat (grid rows rows)))
          (take (Z.to_nat (rows * rows)) ys).
Proof.
  intros Hne rows Hys.
  destruct (show_xys_start xs ys figsize kwargs Hne) as (Hrows & Hsq & Hlen & Hstart).
  fold rows in Hrows, Hsq, Hlen, Hstart.
  set (axl := ax_at <$> concat (grid rows rows)) in *.
  destruct (loop_in_both xs ys kwargs axl 0) as (evs & Hrun & Hacc & Hshow & _);
    [lia|lia|lia|].
  rewrite Hlen in Hacc. rewrite !drop_0 in Hshow.
  replace (length axl) with (Z.to_nat (rows * rows)) in Hshow by lia.
  exists ([Subplots rows rows figsize] ++ evs ++ [TightLayout]).
  split; [|split].
  - intros tr. rewrite Hstart. erewrite run_bind_inr by apply Hrun.
    unfold emit. now rewrite <- !app_assoc.
  - rewrite !accesses_app. cbn. now rewrite app_nil_r.
  - rewrite !shows_app. cbn. now rewrite app_nil_r.
Qed.

(** With fewer than [rows*rows] targets, [show_xys] raises [IndexError] at
    the first position [ys] does not have: every target has been shown by
    then, with the item of its position, and [plt.tight_layout()] is not
    reached. *)
Theorem show_xys_short_targets (xs : list X) (ys : list Y) (figsize : Z * Z) (kwargs : K) :
  xs <> [] ->
  let rows := int_sqrt (Z.of_nat (length xs)) in
  Z.of_nat (length ys) < rows * rows ->
  exists evs : trace X Y K,
    (forall tr, show_xys xs ys figsize kwargs tr = (inl IndexError, tr ++ evs)) /\
    shows evs =
      zip (zip (take (length ys) xs)
               (take (length ys) (ax_at <$> concat (grid rows rows)))) ys /\
    length (shows evs) = length ys /\
    last evs = Some (GetItem Ys (Z.of_nat (length ys))) /\
    ~ In TightLayout evs.
Proof.
  intros Hne rows Hys.
  destruct (show_xys_start xs ys figsize kwargs Hne) as (Hrows & Hsq & Hlen & Hstart).
  fold rows in Hrows, Hsq, Hlen, Hstart.
  set (axl := ax_at <$> concat (grid rows rows)) in *.
  set (m := length ys) in *.
  assert (Hm : (m < length axl)%nat) by lia.
  assert (Htake : length (take m axl) = m) by (rewrite length_take; lia).
  destruct (lookup_lt_is_Some_2 axl m Hm) as [ax Hax].
  destruct (lookup_lt_is_Some_2 xs m) as [x Hx]; [lia|].
  destruct (loop_in_both xs ys kwargs (take m axl) 0)
    as (evs & Hrun & Hacc & Hshow & Hfree);
    [lia|rewrite Htake; lia|rewrite Htake; unfold m; lia|].
  rewrite Htake, !drop_0 in Hshow.
  replace (take m ys) with ys in Hshow by (unfold m; now rewrite firstn_all).
  assert (Hfail : forall tr,
    for_enumerate 0 axl (xys_body xs ys kwargs) tr =
    (inl IndexError, tr ++ evs ++ [GetItem Xs (Z.of_nat m); GetItem Ys (Z.of_nat m)])).
  { assert (Hnone : py_index ys (Z.of_nat m) = None).
    { unfold py_index. fold m.
      destruct (Z.leb_spec 0 (Z.of_nat m)); [|lia].
      destruct (Z.ltb_spec (Z.of_nat m) (Z.of_nat m)); [lia|]. cbn [andb].
      destruct (Z.leb_spec (- Z.of_nat m) (Z.of_nat m)); cbn [andb];
        [destruct (Z.ltb_spec (Z.of_nat m) 0); [lia|reflexivity]|reflexivity]. }
    assert (Hbody : forall tr,
      xys_body xs ys kwargs (Z.of_nat m) ax tr =
      (inl IndexError, tr ++ [GetItem Xs (Z.of_nat m); GetItem Ys (Z.of_nat m)])).
    { intros tr. unfold getitem, emit, mbind, py_bind.
      rewrite (py_index_in_range xs) by lia. rewrite Nat2Z.id, Hx, Hnone.
      cbn. now rewrite <- !app_assoc. }
    intros tr. rewrite <- (take_drop m axl) at 1.
    rewrite for_enumerate_app, Htake.
    erewrite run_bind_inr by apply Hrun.
    rewrite (drop_S axl ax m Hax). cbn [for_enumerate]. rewrite Z.add_0_l.
    erewrite run_bind_inl by apply Hbody.
    now rewrite <- app_assoc. }
  exists ([Subplots rows rows figsize] ++ evs
          ++ [GetItem Xs (Z.of_nat m); GetItem Ys (Z.of_nat m)]).
  assert (Hshows :
    shows ([Subplots rows rows figsize] ++ evs
           ++ [GetItem Xs (Z.of_nat m); GetItem Ys (Z.of_nat m)] : trace X Y K)
    = zip (zip (take m xs) (take m axl)) ys).
  { rewrite !shows_app. cbn. now rewrite app_nil_r. }
  split; [|split; [|split; [|split]]].
  - intros tr. rewrite Hstart. erewrite run_bind_inl by apply Hfail.
    now rewrite <- !app_assoc.
  - exact Hshows.
  - rewrite Hshows, !length_zip_with, !length_take. unfold m. lia.
  - rewrite app_assoc.
    change [GetItem Xs (Z.of_nat m); GetItem Ys (Z.of_nat m)]
      with ([GetItem Xs (Z.of_nat m)] ++ [GetItem (X := X) (Y := Y) (K := K) Ys (Z.of_nat m)]).
    rewrite app_assoc. apply last_snoc.
  - intros Hin. cbn [app] in Hin. destruct Hin as [H|Hin]; [discriminate|].
    apply in_app_or in Hin as [Hin|[H|[H|[]]]]; try discriminate.
    exact (Hfree Hin).
Qed.

Lemma length_zip3_min (xs : list X) (ys zs : list Y) :
  length (zip3 xs ys zs) = Nat.min (length xs) (Nat.min (length ys) (length zs)).
Proof.
  revert ys zs. induction xs as [|x xs IH]; intros [|y ys] [|z zs]; try reflexivity.
  cbn [zip3 length]. rewrite IH. lia.
Qed.

(** With two inputs or more, [show_xyzs] never raises, whatever the lengths
    of [ys] and [zs]: [zip] stops at the shortest of the three lists, so the
    loop runs [min(len(xs), len(ys), len(zs))] times, each time showing one
    input twice, and the rows of the figure beyond that stay empty. *)
Theorem show_xyzs_stops_at_shortest (xs : list X) (ys zs : list Y)
  (figsize : option (Z * Z)) (kwargs : K) :
  (2 <= length xs)%nat ->
  exists evs : trace X Y K,
    (forall tr, show_xyzs xs ys zs figsize kwargs tr = (inr tt, tr ++ evs)) /\
    length (zip3 xs ys zs) = Nat.min (length xs) (Nat.min (length ys) (length zs)) /\
    shows evs =
      flat_map (fun it : Z * (X * Y * Y) =>
                  [(it.2.1.1, Ax it.1 0, it.2.1.2); (it.2.1.1, Ax it.1 1, it.2.2)])
        (zip (seqZ 0 (Z.of_nat (length (zip3 xs ys zs)))) (zip3 xs ys zs)) /\
    length (shows evs) =
      (2 * Nat.min (length xs) (Nat.min (length ys) (length zs)))%nat.
Proof.
  intros Hn. pose proof (length_zip3_min xs ys zs) as Hzip.
  destruct (loop_xyzs X Y K (Z.of_nat (length xs)) kwargs (zip3 xs ys zs) 0)
    as (evs & Hrun & Hshow & Hcount); [lia|lia|].
  exists ([Subplots (Z.of_nat (length xs)) 2
             (ifnone figsize (6, 3 * Z.of_nat (length xs)));
           Suptitle "Ground truth / Predictions"] ++ evs).
  split; [|split; [exact Hzip|split]].
  - intros tr. unfold show_xyzs. cbv zeta.
    erewrite run_bind_inr by (apply subplots_grid; lia).
    erewrite run_bind_inr by reflexivity.
    rewrite Hrun. now rewrite <- !app_assoc.
  - rewrite shows_app. exact Hshow.
  - rewrite shows_app, <- Hzip. exact Hcount.
Qed.

End MoreOnShow.

Lemma show_xys_first_square_witness :
  demo_xs <> [] /\
  int_sqrt (Z.of_nat (length demo_xs)) * int_sqrt (Z.of_nat (length demo_xs))
    <= Z.of_nat (length [20; 21; 22; 23]%nat) /\
  exists evs : trace nat nat unit,
    show_xys demo_xs [20; 21; 22; 23]%nat default_figsize tt [] = (inr tt, evs) /\
    shows evs =
      [(10, Ax 0 0, 20); (11, Ax 0 1, 21); (12, Ax 1 0, 22); (13, Ax 1 1, 23)]%nat.
Proof.
  assert (Hne : demo_xs <> []) by discriminate.
  assert (Hsq : int_sqrt (Z.of_nat (length demo_xs)) * int_sqrt (Z.of_nat (length demo_xs))
                <= Z.of_nat (length [20; 21; 22; 23]%nat)) by (vm_compute; discriminate).
  split; [exact Hne|]. split; [exact Hsq|].
  destruct (show_xys_first_square nat nat unit demo_xs [20; 21; 22; 23]%nat
              default_figsize tt Hne Hsq) as (evs & Hrun & _ & Hshow).
  exists evs. split; [apply (Hrun [])|]. rewrite Hshow. reflexivity.
Defined.

Lemma show_xys_short_targets_witness :
  demo_xs <> [] /\
  Z.of_nat (length [20; 21]%nat)
    < int_sqrt (Z.of_nat (length demo_xs)) * int_sqrt (Z.of_nat (length demo_xs)) /\
  exists evs : trace nat nat unit,
    show_xys demo_xs [20; 21]%nat default_figsize tt [] = (inl IndexError, evs) /\
    shows evs = [(10, Ax 0 0, 20); (11, Ax 0 1, 21)]%nat /\
    last evs = Some (GetItem Ys 2).
Proof.
  assert (Hne : demo_xs <> []) by discriminate.
  assert (Hlt : Z.of_nat (length [20; 21]%nat)
                < int_sqrt (Z.of_nat (length demo_xs)) * int_sqrt (Z.of_nat (length demo_xs)))
    by (vm_compute; reflexivity).
  split; [exact Hne|]. split; [exact Hlt|].
  destruct (show_xys_short_targets nat nat unit demo_xs [20; 21]%nat
              default_figsize tt Hne Hlt) as (evs & Hrun & Hshow & _ & Hlast & _).
  exists evs. split; [apply (Hrun [])|]. split; [|exact Hlast].
  rewrite Hshow. reflexivity.
Defined.

Lemma show_xyzs_stops_at_shortest_witness :
  (2 <= length demo_xs)%nat /\
  exists evs : trace nat nat unit,
    show_xyzs demo_xs [20; 21; 22]%nat demo_zs None tt [] = (inr tt, evs) /\
    shows evs =
      [(10, Ax 0 0, 20); (10, Ax 0 1, 30); (11, Ax 1 0, 21); (11, Ax 1 1, 31);
       (12, Ax 2 0, 22); (12, Ax 2 1, 32)]%nat.
Proof.
  assert (Hn : (2 <= length demo_xs)%nat) by (simpl; lia).
  split; [exact Hn|].
  destruct (show_xyzs_stops_at_shortest nat nat unit demo_xs [20; 21; 22]%nat demo_zs
              None tt Hn) as (evs & Hrun & _ & Hshow & _).
  exists evs. split; [apply (Hrun [])|]. rewrite Hshow. reflexivity.
Defined.

End ImageFacts.

(** ** [SegmentationProcessor]: errors and the life of the stored classes *)

Module SegmentationProcessorUse.

Import Heap HeapFacts SegmentationProcessor SegmentationProcessorFacts.

Lemma getattr_attr (h : heap) (o : loc) (name : string) :
  getattr o name h =
  match attr h o name with
  | Some v => (inr v, h)
  | None => (inl AttributeError, h)
  end.
Proof.
  unfold getattr, attr. destruct (h !! o) as [[|c a]|]; try reflexivity.
  now destruct (a !! name).
Qed.

Lemma len_of_insert_fresh (h : heap) (o : loc) (ob : object) (v : value) (n : Z) :
  h !! o = None -> len_of h v = Some n -> len_of (<[o := ob]> h) v = Some n.
Proof.
  intros Hfresh. destruct v as [| | |l]; try (intros H; exact H).
  unfold len_of. destruct (decide (o = l)) as [->|Hne].
  - now rewrite Hfresh.
  - now rewrite lookup_insert_ne.
Qed.

(** On plain instances (objects with an attribute dictionary, which take
    any attribute), when [process] raises, and what: for a processor [p] and
    an item list [ds] that are such instances, [AttributeError] when [p]
    holds no [classes], [TypeError] when the stored classes have no length,
    each time with nothing assigned; and it returns exactly when [p] holds
    classes that have a length. *)
Theorem process_raises_when (h : heap) (p ds : loc) (pc c : string) :
  class_of h p = Some pc -> class_of h ds = Some c ->
  (attr h p "classes" = None -> process p ds h = (inl AttributeError, h)) /\
  (forall v : value,
     attr h p "classes" = Some v -> len_of h v = None ->
     process p ds h = (inl TypeError, h)) /\
  ((exists h' : heap, process p ds h = (inr tt, h')) <->
   (exists (v : value) (n : Z),
      attr h p "classes" = Some v /\ len_of h v = Some n)).
Proof.
  intros Hp Hds. split; [|split].
  - intros Hnone. unfold process.
    erewrite run_bind_inl; [reflexivity|]. now rewrite getattr_attr, Hnone.
  - intros v Hv Hlen. unfold process.
    erewrite run_bind_inr by (rewrite getattr_attr, Hv; reflexivity).
    erewrite run_bind_inr by (rewrite getattr_attr, Hv; reflexivity).
    erewrite run_bind_inl; [reflexivity|]. unfold len. now rewrite Hlen.
  - split.
    + intros [h' Hrun].
      destruct (process_returns_inv _ _ _ _ Hrun)
        as (pc' & c' & pa & a & v & n & Hp' & Hv & Hn & Hds').
      exists v, n. unfold attr. now rewrite Hp'.
    + intros (v & n & Hv & Hn).
      unfold attr in Hv. unfold class_of in Hds.
      destruct (h !! p) as [[|pc' pa]|] eqn:Hp'; try discriminate.
      destruct (h !! ds) as [[|c' a]|] eqn:Hd; try discriminate.
      eexists. eapply process_assigns; eauto.
Qed.

Lemma process_raises_when_witness :
  class_of demo_heap_unset 4%positive = Some "SegmentationProcessor" /\
  class_of demo_heap_unset 5%positive = Some "SegmentationProcessor" /\
  class_of demo_heap_unset 1%positive = Some "SegmentationLabelList" /\
  process 4%positive 1%positive demo_heap_unset = (inl TypeError, demo_heap_unset) /\
  process 5%positive 1%positive demo_heap_unset = (inl AttributeError, demo_heap_unset).
Proof.
  assert (H4 : class_of demo_heap_unset 4%positive = Some "SegmentationProcessor")
    by reflexivity.
  assert (H5 : class_of demo_heap_unset 5%positive = Some "SegmentationProcessor")
    by reflexivity.
  assert (H1 : class_of demo_heap_unset 1%positive = Some "SegmentationLabelList")
    by reflexivity.
  destruct (process_raises_when demo_heap_unset 4%positive 1%positive _ _ H4 H1)
    as (_ & Htype & _).
  destruct (process_raises_when demo_heap_unset 5%positive 1%positive _ _ H5 H1)
    as (Hattr & _).
  split; [exact H4|]. split; [exact H5|]. split; [exact H1|]. split.
  - apply (Htype VNone); reflexivity.
  - apply Hattr. reflexivity.
Defined.

(** A [process] call on plain instances that raises has assigned nothing:
    the exception comes from the right-hand side, [AttributeError] for a
    processor without [classes] and [TypeError] for classes without a
    length, before either target is assigned. *)
Theorem process_raises_unchanged (h h' : heap) (p ds : loc) (pc c : string) (e : exn) :
  class_of h p = Some pc -> class_of h ds = Some c ->
  process p ds h = (inl e, h') ->
  h' = h /\
  ((e = AttributeError /\ attr h p "classes" = None) \/
   (e = TypeError /\
    exists v : value, attr h p "classes" = Some v /\ len_of h v = None)).
Proof.
  intros Hp Hds Hrun.
  destruct (process_raises_when h p ds pc c Hp Hds) as (Hattr & Htype & Hret).
  destruct (attr h p "classes") as [v|] eqn:Hv.
  - destruct (len_of h v) as [n|] eqn:Hn.
    + destruct Hret as [_ Hret]. destruct Hret as [h2 Hok]; [now exists v, n|].
      rewrite Hok in Hrun. discriminate Hrun.
    + rewrite (Htype v eq_refl Hn) in Hrun. injection Hrun as <- <-.
      split; [reflexivity|]. right. split; [reflexivity|]. now exists v.
  - rewrite (Hattr eq_refl) in Hrun. injection Hrun as <- <-.
    split; [reflexivity|]. now left.
Qed.

Lemma process_raises_unchanged_witness :
  class_of demo_heap_unset 4%positive = Some "SegmentationProcessor" /\
  class_of demo_heap_unset 1%positive = Some "SegmentationLabelList" /\
  exists h' : heap,
    process 4%positive 1%positive demo_heap_unset = (inl TypeError, h') /\
    h' = demo_heap_unset.
Proof.
  assert (H4 : class_of demo_heap_unset 4%positive = Some "SegmentationProcessor")
    by reflexivity.
  assert (H1 : class_of demo_heap_unset 1%positive = Some "SegmentationLabelList")
    by reflexivity.
  split; [exact H4|]. split; [exact H1|].
  destruct (process 4%positive 1%positive demo_heap_unset) as [r h'] eqn:Hrun.
  assert (Hr : r = inl TypeError) by (vm_compute in Hrun; congruence).
  subst r. exists h'. split; [reflexivity|].
  exact (proj1 (process_raises_unchanged demo_heap_unset h' 4%positive 1%positive
                  _ _ TypeError H4 H1 Hrun)).
Defined.

(** Construction succeeds exactly when the list has a [classes] attribute;
    otherwise it raises [AttributeError], and no object that was in the
    store is changed. *)
Theorem create_needs_classes (h : heap) (ds0 : loc) :
  (attr h ds0 "classes" = None ->
   exists h' : heap,
     create ds0 h = (inl AttributeError, h') /\
     forall (l : loc) (ob : object), h !! l = Some ob -> h' !! l = Some ob) /\
  ((exists (p : loc) (h' : heap), create ds0 h = (inr p, h')) <->
   (exists v : value, attr h ds0 "classes" = Some v)).
Proof.
  assert (Hfresh : h !! fresh (dom h) = None) by (apply not_elem_of_dom, is_fresh).
  assert (Hraise : attr h ds0 "classes" = None ->
    create ds0 h = (inl AttributeError,
                    <[fresh (dom h) := OInst "SegmentationProcessor" ∅]> h)).
  { intros Hnone. unfold create, __init__, alloc.
    erewrite run_bind_inr by reflexivity.
    erewrite run_bind_inl; [reflexivity|].
    erewrite run_bind_inl; [reflexivity|].
    rewrite getattr_attr. unfold attr in *.
    destruct (decide (fresh (dom h) = ds0)) as [<-|Hne].
    - now rewrite lookup_insert_eq, lookup_empty.
    - rewrite lookup_insert_ne by exact Hne. now rewrite Hnone. }
  split.
  - intros Hnone. eexists. split; [apply Hraise, Hnone|].
    intros l ob Hl. rewrite lookup_insert_ne; [exact Hl|congruence].
  - split.
    + intros (p & h' & Hrun).
      destruct (attr h ds0 "classes") as [v|] eqn:Hv; [now exists v|].
      rewrite (Hraise eq_refl) in Hrun. discriminate.
    + intros [v Hv]. unfold attr in Hv.
      destruct (h !! ds0) as [[|c0 a0]|] eqn:Hds0; try discriminate.
      destruct (create_stores_classes h ds0 c0 a0 v Hds0 Hv) as [_ Hrun].
      eauto.
Qed.

Lemma create_needs_classes_witness :
  attr demo_heap 2%positive "classes" = None /\
  (exists h' : heap, create 2%positive demo_heap = (inl AttributeError, h')) /\
  (exists (p : loc) (h' : heap), create 3%positive demo_heap = (inr p, h')).
Proof.
  destruct (create_needs_classes demo_heap 2%positive) as [Hraise _].
  destruct (create_needs_classes demo_heap 3%positive) as [_ [_ Hok]].
  split; [reflexivity|]. split.
  - destruct (Hraise eq_refl) as (h' & Hrun & _). now exists h'.
  - apply Hok. now exists VNone.
Defined.

(** The stored classes travel: a processor built from [ds0] and run on
    [ds] leaves [ds] in a state from which a second processor can be built,
    and that one holds the same classes as the first; [ds.c] is their
    length. *)
Theorem classes_travel (h : heap) (ds0 ds : loc) (c0 c : string)
  (a0 a : gmap string value) (v : value) (n : Z) :
  h !! ds0 = Some (OInst c0 a0) -> a0 !! "classes" = Some v ->
  len_of h v = Some n -> h !! ds = Some (OInst c a) ->
  exists (p p' : loc) (h' : heap),
    (p ← create ds0; _ ← process p ds; p' ← create ds; mret (p, p')) h
      = (inr (p, p'), h') /\
    p <> p' /\
    h' !! p = Some (OInst "SegmentationProcessor" {[ "classes" := v ]}) /\
    h' !! p' = Some (OInst "SegmentationProcessor" {[ "classes" := v ]}) /\
    attr h' ds "classes" = Some v /\
    attr h' ds "c" = Some (VInt n).
Proof.
  intros Hds0 Hv Hn Hds.
  destruct (create_stores_classes h ds0 c0 a0 v Hds0 Hv) as [Hfresh Hcreate].
  set (p := fresh (dom h)) in *.
  set (h1 := <[p := OInst "SegmentationProcessor" {[ "classes" := v ]}]> h) in *.
  assert (Hpds : p <> ds) by (intros ->; congruence).
  set (a2 := <["c" := VInt n]> (<["classes" := v]> a)).
  set (h2 := <[ds := OInst c a2]> h1).
  assert (Hprocess : process p ds h1 = (inr tt, h2)).
  { eapply process_assigns.
    - apply lookup_insert_eq.
    - apply lookup_singleton_eq.
    - now apply len_of_insert_fresh.
    - unfold h1. rewrite lookup_insert_ne by exact Hpds. exact Hds. }
  assert (Ha2 : a2 !! "classes" = Some v).
  { unfold a2. rewrite lookup_insert_ne by discriminate. apply lookup_insert_eq. }
  assert (Hh2p : h2 !! p = Some (OInst "SegmentationProcessor" {[ "classes" := v ]})).
  { unfold h2. rewrite lookup_insert_ne by congruence. apply lookup_insert_eq. }
  destruct (create_stores_classes h2 ds c a2 v (lookup_insert_eq _ _ _) Ha2)
    as [Hfresh' Hcreate'].
  set (p' := fresh (dom h2)) in *.
  assert (Hpp : p <> p') by (intros Heq; rewrite <- Heq in Hfresh'; congruence).
  assert (Hp'ds : p' <> ds)
    by (intros Heq; rewrite Heq in Hfresh'; unfold h2 in Hfresh';
        rewrite lookup_insert_eq in Hfresh'; discriminate).
  exists p, p', (<[p' := OInst "SegmentationProcessor" {[ "classes" := v ]}]> h2).
  split; [|split; [exact Hpp|split; [|split; [|split]]]].
  - erewrite run_bind_inr by exact Hcreate.
    erewrite run_bind_inr by exact Hprocess.
    erewrite run_bind_inr by exact Hcreate'.
    reflexivity.
  - rewrite lookup_insert_ne by congruence. exact Hh2p.
  - apply lookup_insert_eq.
  - unfold attr. rewrite lookup_insert_ne by exact Hp'ds.
    unfold h2. rewrite lookup_insert_eq. exact Ha2.
  - unfold attr. rewrite lookup_insert_ne by exact Hp'ds.
    unfold h2. rewrite lookup_insert_eq. apply lookup_insert_eq.
Qed.

Lemma classes_travel_witness :
  demo_heap !! 1%positive =
    Some (OInst "SegmentationLabelList"
            {[ "classes" := VRef 2%positive; "path" := VStr "camvid" ]}) /\
  len_of demo_heap (VRef 2%positive) = Some 3 /\
  exists (p p' : loc) (h' : heap),
    (p ← create 1%positive; _ ← process p 3%positive; p' ← create 3%positive;
     mret (p, p')) demo_heap = (inr (p, p'), h') /\
    attr h' p' "classes" = Some (VRef 2%positive) /\
    attr h' 3%positive "c" = Some (VInt 3).
Proof.
  split; [reflexivity|]. split; [reflexivity|].
  destruct (classes_travel demo_heap 1%positive 3%positive
              "SegmentationLabelList" "SegmentationLabelList"
              {[ "classes" := VRef 2%positive; "path" := VStr "camvid" ]}
              {[ "classes" := VNone; "c" := VInt 7; "path" := VStr "test" ]}
              (VRef 2%positive) 3 eq_refl eq_refl eq_refl eq_refl)
    as (p & p' & h' & Hrun & _ & _ & Hp' & _ & Hc).
  exists p, p', h'. split; [exact Hrun|]. split; [|exact Hc].
  unfold attr. rewrite Hp'. apply lookup_singleton_eq.
Defined.

End SegmentationProcessorUse.

(** ** [MyCustomItemList]: from [__init__] to [new] *)

Module MyCustomItemListUse.

Import Heap HeapFacts MyCustomItemList MyCustomItemListFacts.

Section WithItemList.

Variable ItemList_init : loc -> list value -> gmap string value -> py heap unit.
Variable ItemList_new : loc -> list value -> gmap string value -> py heap value.

(** The argument given to [__init__] is the one [new] hands on: [__init__]
    stores [my_arg] before the initialiser of the base class runs, and as
    long as that one leaves [self.my_arg] alone, a later [new] passes
    [items] and this [my_arg], in this order, to the [new] of the base
    class, and returns [None]. *)
Theorem init_then_new_passes_my_arg (h h1 h2 : heap) (self : loc) (c : string)
  (a : gmap string value) (items my_arg items' r : value)
  (kwargs kwargs' : gmap string value) :
  h !! self = Some (OInst c a) ->
  ItemList_init self [items] kwargs (<[self := OInst c (<["my_arg" := my_arg]> a)]> h)
    = (inr tt, h1) ->
  attr h1 self "my_arg" = Some my_arg ->
  ItemList_new self [items'; my_arg] kwargs' h1 = (inr r, h2) ->
  __init__ ItemList_init self items my_arg kwargs h = (inr tt, h1) /\
  (_ ← __init__ ItemList_init self items my_arg kwargs;
   new ItemList_new self items' kwargs') h = (inr VNone, h2).
Proof.
  intros Hself Hinit Harg Hnew.
  assert (Hrun : __init__ ItemList_init self items my_arg kwargs h = (inr tt, h1)).
  { unfold __init__.
    erewrite run_bind_inr by (apply setattr_inst; exact Hself). exact Hinit. }
  split; [exact Hrun|].
  erewrite run_bind_inr by exact Hrun.
  now rewrite new_unfold, Harg, Hnew.
Qed.

(** Every way [new] can end on an instance: without [self.my_arg] it
    raises [AttributeError] and the base class is not called; an exception
    of the base class's [new] comes through as it is, with the store that
    call left; and a value [new] returns is [None]. *)
Theorem new_outcomes (h : heap) (self : loc) (c : string) (items : value)
  (kwargs : gmap string value) :
  class_of h self = Some c ->
  (attr h self "my_arg" = None ->
   new ItemList_new self items kwargs h = (inl AttributeError, h)) /\
  (forall (my_arg : value) (e : exn) (h' : heap),
     attr h self "my_arg" = Some my_arg ->
     ItemList_new self [items; my_arg] kwargs h = (inl e, h') ->
     new ItemList_new self items kwargs h = (inl e, h')) /\
  (forall (v : value) (h' : heap),
     new ItemList_new self items kwargs h = (inr v, h') ->
     v = VNone /\
     exists my_arg r : value,
       attr h self "my_arg" = Some my_arg /\
       ItemList_new self [items; my_arg] kwargs h = (inr r, h')).
Proof.
  intros _. split; [|split].
  - intros Hnone. now rewrite new_unfold, Hnone.
  - intros my_arg e h' Harg Hsuper. now rewrite new_unfold, Harg, Hsuper.
  - intros v h'. rewrite new_unfold.
    destruct (attr h self "my_arg") as [my_arg|]; [|discriminate].
    destruct (ItemList_new self [items; my_arg] kwargs h) as [[e|r] h1] eqn:Hsuper;
      [discriminate|].
    intros [= <- <-]. split; [reflexivity|]. now exists my_arg, r.
Qed.

End WithItemList.

Lemma init_then_new_passes_my_arg_witness :
  ({[ 1%positive := OInst "MyCustomItemList" ∅ ]} : heap) !! 1%positive
    = Some (OInst "MyCustomItemList" ∅) /\
  exists h2 : heap,
    (_ ← __init__ demo_ItemList_init 1%positive (VRef 2%positive) (VInt 42) ∅;
     new demo_ItemList_new 1%positive (VStr "valid") ∅)
      {[ 1%positive := OInst "MyCustomItemList" ∅ ]} = (inr VNone, h2) /\
    attr h2 2%positive "processor" = Some (VInt 42) /\
    attr h2 2%positive "items" = Some (VStr "valid").
Proof.
  set (h := ({[ 1%positive := OInst "MyCustomItemList" ∅ ]} : heap)).
  set (h1 := ({[ 1%positive := OInst "MyCustomItemList"
                   {[ "my_arg" := VInt 42; "items" := VRef 2%positive ]} ]} : heap)).
  set (h2 := (<[2%positive := OInst "ItemList"
                   {[ "items" := VStr "valid"; "processor" := VInt 42 ]}]> h1 : heap)).
  assert (Hself : h !! 1%positive = Some (OInst "MyCustomItemList" ∅)) by reflexivity.
  assert (Hinit : demo_ItemList_init 1%positive [VRef 2%positive] ∅
            (<[1%positive := OInst "MyCustomItemList" (<["my_arg" := VInt 42]> ∅)]> h)
          = (inr tt, h1)) by (vm_compute; reflexivity).
  assert (Harg : attr h1 1%positive "my_arg" = Some (VInt 42)) by reflexivity.
  assert (Hnew : demo_ItemList_new 1%positive [VStr "valid"; VInt 42] ∅ h1
                 = (inr (VRef 2%positive), h2)) by (vm_compute; reflexivity).
  split; [exact Hself|]. exists h2.
  destruct (init_then_new_passes_my_arg demo_ItemList_init demo_ItemList_new
              h h1 h2 1%positive "MyCustomItemList" ∅
              (VRef 2%positive) (VInt 42) (VStr "valid") (VRef 2%positive) ∅ ∅
              Hself Hinit Harg Hnew) as [_ Hrun].
  split; [exact Hrun|]. split; reflexivity.
Defined.

Lemma new_outcomes_witness :
  class_of demo_custom_unset 1%positive = Some "MyCustomItemList" /\
  class_of demo_custom 1%positive = Some "MyCustomItemList" /\
  new demo_ItemList_new 1%positive (VRef 2%positive) ∅ demo_custom_unset
    = (inl AttributeError, demo_custom_unset) /\
  new demo_ItemList_new_strict 1%positive (VInt 7) ∅ demo_custom
    = (inl TypeError, demo_custom) /\
  exists h' : heap,
    new demo_ItemList_new 1%positive (VRef 2%positive) ∅ demo_custom = (inr VNone, h') /\
    demo_ItemList_new 1%positive [VRef 2%positive; VInt 42] ∅ demo_custom
      = (inr (VRef 3%positive), h').
Proof.
  assert (Hu : class_of demo_custom_unset 1%positive = Some "MyCustomItemList")
    by reflexivity.
  assert (Hc : class_of demo_custom 1%positive = Some "MyCustomItemList") by reflexivity.
  destruct (new_outcomes demo_ItemList_new demo_custom_unset 1%positive _
              (VRef 2%positive) ∅ Hu) as (Hraise & _ & _).
  destruct (new_outcomes demo_ItemList_new_strict demo_custom 1%positive _
              (VInt 7) ∅ Hc) as (_ & Hbase & _).
  destruct (new_outcomes demo_ItemList_new demo_custom 1%positive _
              (VRef 2%positive) ∅ Hc) as (_ & _ & Hret).
  split; [exact Hu|]. split; [exact Hc|]. split; [apply Hraise; reflexivity|].
  split; [apply (Hbase (VInt 42)); reflexivity|].
  destruct (new demo_ItemList_new 1%positive (VRef 2%positive) ∅ demo_custom)
    as [r h'] eqn:Hrun.
  assert (Hr : exists v, r = inr v) by (vm_compute in Hrun; injection Hrun as <- _; eauto).
  destruct Hr as [v ->].
  destruct (Hret v h' eq_refl) as (-> & my_arg & r & Harg & Hsuper).
  exists h'. split; [reflexivity|].
  assert (my_arg = VInt 42) as -> by (vm_compute in Harg; congruence).
  rewrite Hsuper. f_equal.
  assert (Hfst : fst (demo_ItemList_new 1%positive [VRef 2%positive; VInt 42] ∅ demo_custom)
                 = inr (VRef 3%positive)) by (vm_compute; reflexivity).
  rewrite Hsuper in Hfst. exact Hfst.
Defined.

End MyCustomItemListUse.
